(** * DataManager: a shallow embedding of the data-access layer

    The JavaScript class [DataManager] (cache with expiry, fetch with
    retry, request cancellation, collection helpers, statistics) is
    embedded as executable Rocq definitions.

    - JavaScript values are the inductive [JsValue]; numbers are the
      integers ([Z]), strings are sequences of code units below 256.
    - A [Map] and a plain object are insertion-ordered association lists.
    - The fields of [this] and the part of the platform the class talks to
      (clock, network, abort controllers, console) form one [State]; every
      effect is appended to a [trace].
    - An [async] method is a state transformer that returns a
      [Completion]: the value the promise resolves with, or the error it
      rejects with.  One call is run to completion without interleaving.
    - Listener callbacks are observers: they return normally and do not
      call back into the manager.
    - Timers are a list of pending timers beside the manager; time
      passes in steps during which nothing but due timers runs.
    - [sortData] is embedded on collections whose sort field is a string
      in every item or a number in every item.
    - The application class [DataManagerApp] is embedded as far as its
      pagination goes; its rendering of cards and messages is not. *)

From Stdlib Require Import ZArith List String Ascii Bool Lia DecimalString.
From stdpp Require Import base list strings sorting.
From Equations Require Import Equations.
Import ListNotations.

Local Open Scope Z_scope.
Local Set Warnings "-register-all".

(** ** JavaScript values *)

Inductive JsValue : Type :=
| JUndefined
| JNull
| JBool (b : bool)
| JNum (n : Z)
| JStr (s : string)
| JArr (items : list JsValue)
| JObj (props : list (string * JsValue)).

(** A plain object: own properties in enumeration order. *)
Definition JsObject : Type := list (string * JsValue).

(** [ToBoolean]: what [if (v)], [v && ...] and [!v] test. *)
Definition truthy (v : JsValue) : bool :=
  match v with
  | JUndefined | JNull => false
  | JBool b => b
  | JNum n => negb (n =? 0)
  | JStr s => negb (String.eqb s "")
  | JArr _ | JObj _ => true
  end.

Definition Z_to_string (n : Z) : string := NilZero.string_of_int (Z.to_int n).

(** [ToString], as used by template literals, [URLSearchParams.append]
    and, on non-nullish values, by [value.toString()]. *)
Fixpoint toString (v : JsValue) : string :=
  match v with
  | JUndefined => "undefined"
  | JNull => "null"
  | JBool true => "true"
  | JBool false => "false"
  | JNum n => Z_to_string n
  | JStr s => s
  | JArr items =>
      String.concat ","
        (List.map (fun x => match x with
                            | JUndefined | JNull => ""
                            | _ => toString x
                            end) items)
  | JObj _ => "[object Object]"
  end.

(** [o[k]] on a plain object: the own property, or [undefined]. *)
Fixpoint getProp (o : JsObject) (k : string) : JsValue :=
  match o with
  | [] => JUndefined
  | (k', v) :: o' => if String.eqb k' k then v else getProp o' k
  end.

(** [Object.keys(o)] *)
Definition Object_keys (o : JsObject) : list string := List.map fst o.

(** ** Strings *)

Definition code (c : ascii) : N := N_of_ascii c.

(** White space and line terminators below U+0100, as [trim] sees them. *)
Definition isWhiteSpace (c : ascii) : bool :=
  let n := code c in
  ((9 <=? n) && (n <=? 13) || (n =? 32) || (n =? 160))%N.

Definition lowerChar (c : ascii) : ascii :=
  let n := code c in
  if ((65 <=? n) && (n <=? 90)
      || (192 <=? n) && (n <=? 222) && negb (n =? 215))%N
  then ascii_of_N (n + 32) else c.

Fixpoint toLowerCase (s : string) : string :=
  match s with
  | EmptyString => EmptyString
  | String c s' => String (lowerChar c) (toLowerCase s')
  end.

Fixpoint trimStart (s : string) : string :=
  match s with
  | EmptyString => EmptyString
  | String c s' => if isWhiteSpace c then trimStart s' else s
  end.

Fixpoint trimEnd (s : string) : string :=
  match s with
  | EmptyString => EmptyString
  | String c s' =>
      let t := trimEnd s' in
      if isWhiteSpace c && String.eqb t "" then EmptyString else String c t
  end.

Definition trim (s : string) : string := trimEnd (trimStart s).

(** [s.includes(q)] *)
Fixpoint includes (s q : string) : bool :=
  String.prefix q s
  || match s with
     | EmptyString => false
     | String _ s' => includes s' q
     end.

Fixpoint whitespaceOnly (s : string) : bool :=
  match s with
  | EmptyString => true
  | String c s' => isWhiteSpace c && whitespaceOnly s'
  end.

(** [Array.prototype.sort()] on strings: ascending code-unit order. *)
Fixpoint sort_insert (k : string) (l : list string) : list string :=
  match l with
  | [] => [k]
  | x :: l' => if String.leb k x then k :: l else x :: sort_insert k l'
  end.

Fixpoint sort (l : list string) : list string :=
  match l with
  | [] => []
  | k :: l' => sort_insert k (sort l')
  end.

(** ** [Map]: insertion-ordered, one entry per key *)

Section JsMap.
Context {V : Type}.

Definition JsMap : Type := list (string * V).

Fixpoint Map_get (m : JsMap) (k : string) : option V :=
  match m with
  | [] => None
  | (k', v) :: m' => if String.eqb k' k then Some v else Map_get m' k
  end.

(** [set] keeps the position of an existing key and appends a new one. *)
Fixpoint Map_set (m : JsMap) (k : string) (v : V) : JsMap :=
  match m with
  | [] => [(k, v)]
  | (k', v') :: m' =>
      if String.eqb k' k then (k, v) :: m' else (k', v') :: Map_set m' k v
  end.

Definition Map_delete (m : JsMap) (k : string) : JsMap :=
  List.filter (fun kv => negb (String.eqb (fst kv) k)) m.

Definition Map_keys (m : JsMap) : list string := List.map fst m.

Definition Map_size (m : JsMap) : Z := Z.of_nat (List.length m).
End JsMap.
Arguments JsMap : clear implicits.

(** ** Errors, completions, network replies *)

Record JsError : Type := mkError { name : string; message : string }.

(** How a call ends: [return v] / a resolved promise, or [throw e] / a
    rejected one. *)
Inductive Completion (A : Type) : Type :=
| Normal (a : A)
| Throw (e : JsError).
Arguments Normal {A} a.
Arguments Throw {A} e.

(** What [response.json()] settles with. *)
Inductive Body : Type :=
| JsonOk (v : JsValue)
| JsonFail (e : JsError).

Record Response : Type :=
  mkResponse { ok : bool; status : Z; statusText : string; body : Body }.

(** What [fetch(url, options)] settles with. *)
Inductive FetchOutcome : Type :=
| Rejected (e : JsError)
| Resolved (r : Response).

Record NetReply : Type := mkReply { elapsed : Z; outcome : FetchOutcome }.

(** Everything a call does to the outside, in order.  A payload is
    [null] ([None]) or an error object. *)
Inductive Effect : Type :=
| Notify (event : string) (payload : option JsError)
    (* a call of notifyListeners(event, payload) *)
| Invoke (callback : nat) (payload : option JsError)
    (* a registered callback called with the payload *)
| Abort (controller : nat)                 (* controller.abort() *)
| NewAbortController (controller : nat)    (* new AbortController() *)
| Fetch (url : string) (signal : option nat)
    (* fetch(url, { signal }); no signal when the options are empty *)
| Delay (ms : Z)                           (* a timer of ms awaited *)
| ConsoleError (e : JsError).              (* console.error(..., e) *)

(** ** The manager and its platform *)

Record CacheEntry : Type := mkEntry { data : JsValue; timestamp : Z }.

Record Config : Type :=
  mkConfig { maxRetries : Z; retryDelay : Z; cacheExpiry : Z; debounceDelay : Z }.

Record State : Type := mkState {
  (* the fields of [this] *)
  baseUrl : string;
  cache : JsMap CacheEntry;
  requestCount : Z;
  abortController : option nat;
  debounceTimer : option nat;
  config : Config;
  listeners : JsMap (list nat);
  (* the platform *)
  now : Z;                 (* Date.now() *)
  attempts : nat;          (* network calls issued so far *)
  controllers : nat;       (* abort controllers created so far *)
  aborted : list nat;      (* controllers whose signal is aborted *)
  trace : list Effect
}.

Definition default_config : Config := mkConfig 3 1000 (5 * 60 * 1000) 300.

(** [new DataManager(baseUrl)] on a platform whose clock shows [t]. *)
Definition constructor (base : string) (t : Z) : State :=
  mkState base [] 0 None None default_config [] t 0 0 [] [].

Definition set_cache (c : JsMap CacheEntry) (s : State) : State :=
  mkState (baseUrl s) c (requestCount s) (abortController s) (debounceTimer s)
    (config s) (listeners s) (now s) (attempts s) (controllers s) (aborted s)
    (trace s).

Definition set_requestCount (n : Z) (s : State) : State :=
  mkState (baseUrl s) (cache s) n (abortController s) (debounceTimer s)
    (config s) (listeners s) (now s) (attempts s) (controllers s) (aborted s)
    (trace s).

Definition set_abortController (c : option nat) (s : State) : State :=
  mkState (baseUrl s) (cache s) (requestCount s) c (debounceTimer s)
    (config s) (listeners s) (now s) (attempts s) (controllers s) (aborted s)
    (trace s).


Definition set_now (t : Z) (s : State) : State :=
  mkState (baseUrl s) (cache s) (requestCount s) (abortController s)
    (debounceTimer s) (config s) (listeners s) t (attempts s) (controllers s)
    (aborted s) (trace s).

Definition set_attempts (n : nat) (s : State) : State :=
  mkState (baseUrl s) (cache s) (requestCount s) (abortController s)
    (debounceTimer s) (config s) (listeners s) (now s) n (controllers s)
    (aborted s) (trace s).

Definition set_controllers (n : nat) (s : State) : State :=
  mkState (baseUrl s) (cache s) (requestCount s) (abortController s)
    (debounceTimer s) (config s) (listeners s) (now s) (attempts s) n
    (aborted s) (trace s).

Definition set_aborted (l : list nat) (s : State) : State :=
  mkState (baseUrl s) (cache s) (requestCount s) (abortController s)
    (debounceTimer s) (config s) (listeners s) (now s) (attempts s)
    (controllers s) l (trace s).

Definition set_trace (t : list Effect) (s : State) : State :=
  mkState (baseUrl s) (cache s) (requestCount s) (abortController s)
    (debounceTimer s) (config s) (listeners s) (now s) (attempts s)
    (controllers s) (aborted s) t.

(** ** A state-and-exception monad for method bodies *)

Definition M (A : Type) : Type := State -> Completion A * State.

Definition ret {A} (a : A) : M A := fun s => (Normal a, s).

Definition throw {A} (e : JsError) : M A := fun s => (Throw e, s).

Definition bind {A B} (m : M A) (f : A -> M B) : M B :=
  fun s =>
    match m s with
    | (Normal a, s') => f a s'
    | (Throw e, s') => (Throw e, s')
    end.

(** [try { m } catch (e) { h e }] *)
Definition try_catch {A} (m : M A) (h : JsError -> M A) : M A :=
  fun s =>
    match m s with
    | (Normal a, s') => (Normal a, s')
    | (Throw e, s') => h e s'
    end.

Definition get {A} (f : State -> A) : M A := fun s => (Normal (f s), s).

Definition modify (f : State -> State) : M unit := fun s => (Normal tt, f s).

Declare Scope js_scope.
Delimit Scope js_scope with js.
Notation "x <- m ;; k" := (bind m (fun x => k))
  (at level 100, m at next level, right associativity) : js_scope.
Notation "m ;; k" := (bind m (fun _ => k))
  (at level 100, right associativity) : js_scope.
Local Open Scope js_scope.

Definition log (e : Effect) : M unit :=
  modify (fun s => set_trace (trace s ++ [e]) s).

Definition when (b : bool) (m : M unit) : M unit := if b then m else ret tt.

(** ** The class [DataManager] *)

Section DataManager.
(** The network: the reply to the [i]-th call issued, given its URL
    and the abort controller whose signal it was handed. *)
Variable net : nat -> string -> option nat -> NetReply.

(** The [URL] class: [URL_href base pairs] is the [toString()] of
    [new URL(base)] after [searchParams.append] of each pair in turn,
    or [None] when the constructor throws. *)
Variable URL_href : string -> list (string * string) -> option string.

(** *** Events *)



Definition notifyListeners (event : string) (payload : option JsError) : M unit :=
  log (Notify event payload) ;;
  registered <- get (fun s => Map_get (listeners s) event) ;;
  match registered with
  | Some cbs =>
      modify (fun s =>
        set_trace (trace s ++ List.map (fun cb => Invoke cb payload) cbs) s)
  | None => ret tt
  end.

(** *** Cache *)

Definition generateCacheKey (endpoint : string) (params : JsObject) : string :=
  let paramStr :=
    String.concat "&"
      (List.map (fun key => key +:+ "=" +:+ toString (getProp params key))
         (sort (Object_keys params))) in
  endpoint +:+ (if truthy (JStr paramStr) then "?" +:+ paramStr else "").

Definition isCacheValid (cacheEntry : CacheEntry) : M bool :=
  get (fun s => now s - timestamp cacheEntry <? cacheExpiry (config s)).

Definition setCache (key : string) (d : JsValue) : M unit :=
  modify (fun s => set_cache (Map_set (cache s) key (mkEntry d (now s))) s) ;;
  notifyListeners "cache-updated" None.

(** The result is [entry.data] or [null]. *)
Definition getCache (key : string) : M JsValue :=
  entry <- get (fun s => Map_get (cache s) key) ;;
  match entry with
  | Some e =>
      valid <- isCacheValid e ;;
      if valid then ret (data e)
      else
        modify (fun s => set_cache (Map_delete (cache s) key) s) ;;
        ret JNull
  | None => ret JNull
  end.

Definition clearCache : M unit :=
  modify (set_cache []) ;;
  notifyListeners "cache-cleared" None.

Definition getCacheSize : M Z := get (fun s => Map_size (cache s)).

(** *** Platform calls *)

(** [await fetch(url, { signal })] *)
Definition fetch (url : string) (signal : option nat) : M Response :=
  log (Fetch url signal) ;;
  reply <- get (fun s => net (attempts s) url signal) ;;
  modify (fun s => set_attempts (S (attempts s)) (set_now (now s + elapsed reply) s)) ;;
  match outcome reply with
  | Rejected e => throw e
  | Resolved r => ret r
  end.

(** [await response.json()] *)
Definition json (response : Response) : M JsValue :=
  match body response with
  | JsonOk v => ret v
  | JsonFail e => throw e
  end.

(** [await this.delay(ms)] *)
Definition delay (ms : Z) : M unit :=
  log (Delay ms) ;;
  modify (fun s => set_now (now s + Z.max 0 ms) s).

Definition cancelPendingRequests : M unit :=
  controller <- get abortController ;;
  match controller with
  | Some c =>
      log (Abort c) ;;
      modify (fun s => set_aborted (c :: aborted s) s)
  | None => ret tt
  end.

(** [new AbortController()] *)
Definition new_AbortController : M nat :=
  c <- get controllers ;;
  log (NewAbortController c) ;;
  modify (set_controllers (S c)) ;;
  ret c.

(** *** Fetch with retry *)

(** The [try] block of [fetchWithRetry]. *)
Definition attempt (url : string) (signal : option nat) : M JsValue :=
  modify (fun s => set_requestCount (requestCount s + 1) s) ;;
  notifyListeners "request-started" None ;;
  response <- fetch url signal ;;
  when (negb (ok response))
    (throw (mkError "Error"
              ("HTTP " +:+ Z_to_string (status response) +:+ ": "
               +:+ statusText response))) ;;
  d <- json response ;;
  notifyListeners "request-success" None ;;
  ret d.

Equations? fetchWithRetry (url : string) (signal : option nat) (retries : Z)
    (s : State) : Completion JsValue * State by wf (Z.to_nat retries) lt :=
  fetchWithRetry url signal retries s with attempt url signal s => {
    | (Normal d, s1) => (Normal d, s1)
    | (Throw error, s1) with String.eqb (name error) "AbortError" => {
        | true => (Throw error, s1)
        | false with Logic.inspect (0 <? retries) => {
            | exist _ true positive =>
                fetchWithRetry url signal (retries - 1)
                  (snd (delay (retryDelay (config s1)) s1))
            | exist _ false _ =>
                (notifyListeners "request-error" (Some error) ;;
                 throw error) s1 } } }.
Proof. apply Z.ltb_lt in positive. lia. Qed.

(** *** Cached fetch *)

(** The statements of [fetchData] that follow the cache check. *)
Definition fetchData_request (cacheKey endpoint : string) (params : JsObject)
    (useCache : bool) : M JsValue :=
  cancelPendingRequests ;;
  controller <- new_AbortController ;;
  modify (set_abortController (Some controller)) ;;
  base <- get baseUrl ;;
  match URL_href (base +:+ endpoint)
          (List.map (fun key => (key, toString (getProp params key)))
             (Object_keys params)) with
  | None => throw (mkError "TypeError" "Invalid URL")
  | Some url =>
      try_catch
        (signal <- get abortController ;;
         retries <- get (fun s => maxRetries (config s)) ;;
         d <- fetchWithRetry url signal retries ;;
         when useCache (setCache cacheKey d) ;;
         ret d)
        (fun error =>
           when (negb (String.eqb (name error) "AbortError"))
             (log (ConsoleError error)) ;;
           throw error)
  end.

Definition fetchData (endpoint : string) (params : JsObject) (useCache : bool)
    : M JsValue :=
  let cacheKey := generateCacheKey endpoint params in
  if useCache then
    cachedData <- getCache cacheKey ;;
    if truthy cachedData then
      notifyListeners "cache-hit" None ;;
      ret cachedData
    else fetchData_request cacheKey endpoint params useCache
  else fetchData_request cacheKey endpoint params useCache.

(** *** Derived endpoints *)

(** [page] and [limit] default to 1 and 10 at the call site. *)
Definition fetchPosts (page limit : Z) : M JsValue :=
  let start := (page - 1) * limit in
  fetchData "/posts" [("_start", JNum start); ("_limit", JNum limit)] true.

Definition fetchAllPosts : M JsValue := fetchData "/posts" [] true.

Definition fetchUsers : M JsValue := fetchData "/users" [] true.

(** *** Statistics *)

Definition getStats : M JsObject :=
  cacheSize <- getCacheSize ;;
  count <- get requestCount ;;
  keys <- get (fun s => Map_keys (cache s)) ;;
  ret [("cacheSize", JNum cacheSize);
       ("requestCount", JNum count);
       ("cachedItems", JArr (List.map JStr keys))].
End DataManager.

(** ** Collection helpers

    Each returns a promise that a zero-delay timer resolves; the
    definitions give the value it resolves with.  The items of a
    collection are plain records. *)

Definition filterData (items : list JsObject) (filterFn : JsObject -> bool)
    : list JsObject :=
  List.filter filterFn items.

Definition default_fields : list string := ["title"; "body"].

Definition searchData (items : list JsObject) (query : string)
    (fields : list string) : list JsObject :=
  if negb (truthy (JStr (trim query))) then items
  else
    let lowercaseQuery := toLowerCase query in
    List.filter
      (fun item =>
         List.existsb
           (fun field =>
              let value := getProp item field in
              truthy value
              && includes (toLowerCase (toString value)) lowercaseQuery)
           fields)
      items.

(** ** The documented behaviour, for comparison

    These follow the wording of the documentation, not the code. *)

(** "sorts parameter names lexicographically, joins as [key=value] pairs
    with [&], appends to endpoint after [?] if non-empty" *)
Definition generateCacheKey_documented (endpoint : string) (params : JsObject)
    : string :=
  match params with
  | [] => endpoint
  | _ =>
      endpoint +:+ "?" +:+
      String.concat "&"
        (List.map (fun key => key +:+ "=" +:+ toString (getProp params key))
           (sort (Object_keys params)))
  end.

(** "returns items where ANY of [fields] contains the lowercased query as
    a substring, values coerced to text before comparison" *)
Definition searchData_documented (items : list JsObject) (query : string)
    (fields : list string) : list JsObject :=
  if whitespaceOnly query then items
  else
    List.filter
      (fun item =>
         List.existsb
           (fun field =>
              includes (toLowerCase (toString (getProp item field)))
                (toLowerCase query))
           fields)
      items.

(** "[fetchPosts(page, limit)] = [fetchData('/posts', { start:
    (page-1)*limit, limit })]" *)
Definition fetchPosts_documented
    (net : nat -> string -> option nat -> NetReply)
    (URL_href : string -> list (string * string) -> option string)
    (page limit : Z) : M JsValue :=
  fetchData net URL_href "/posts"
    [("start", JNum ((page - 1) * limit)); ("limit", JNum limit)] true.

(** "[{ cacheSize, requestCount, cachedKeys }]" *)
Definition stats_documented (s : State) : JsObject :=
  [("cacheSize", JNum (Map_size (cache s)));
   ("requestCount", JNum (requestCount s));
   ("cachedKeys", JArr (List.map JStr (Map_keys (cache s))))].

(** The test [searchData] applies to one item. *)
Definition matches (query : string) (fields : list string) (item : JsObject)
    : bool :=
  List.existsb
    (fun field =>
       truthy (getProp item field)
       && includes (toLowerCase (toString (getProp item field)))
            (toLowerCase query))
    fields.

(** ** Vocabulary for the statements *)

(** What one call [notifyListeners(event, payload)] adds to the trace. *)
Definition notified (s : State) (event : string) (payload : option JsError)
    : list Effect :=
  Notify event payload
  :: match Map_get (listeners s) event with
     | Some cbs => List.map (fun cb => Invoke cb payload) cbs
     | None => []
     end.

(** How the [try] block of [fetchWithRetry] ends for a given reply of
    the network. *)
Definition attempt_result (reply : NetReply) : Completion JsValue :=
  match outcome reply with
  | Rejected e => Throw e
  | Resolved r =>
      if ok r then
        match body r with
        | JsonOk v => Normal v
        | JsonFail e => Throw e
        end
      else
        Throw (mkError "Error"
                 ("HTTP " +:+ Z_to_string (status r) +:+ ": " +:+ statusText r))
  end.

(** The state the [try] block leaves behind. *)
Definition after_attempt (url : string) (signal : option nat)
    (reply : NetReply) (s : State) : State :=
  mkState (baseUrl s) (cache s) (requestCount s + 1) (abortController s)
    (debounceTimer s) (config s) (listeners s) (now s + elapsed reply)
    (S (attempts s)) (controllers s) (aborted s)
    (trace s ++ notified s "request-started" None ++ [Fetch url signal]
     ++ match attempt_result reply with
        | Normal _ => notified s "request-success" None
        | Throw _ => []
        end).

(** The state after [await this.delay(ms)]. *)
Definition after_delay (ms : Z) (s : State) : State :=
  set_now (now s + Z.max 0 ms) (set_trace (trace s ++ [Delay ms]) s).

Definition is_Fetch (e : Effect) : bool :=
  match e with Fetch _ _ => true | _ => false end.

Definition is_Delay (e : Effect) : bool :=
  match e with Delay _ => true | _ => false end.

Definition is_Abort (e : Effect) : bool :=
  match e with Abort _ => true | _ => false end.

Definition is_Notify (event : string) (e : Effect) : bool :=
  match e with Notify ev _ => String.eqb ev event | _ => false end.

(** The effects [fetchWithRetry] can have. *)
Definition request_effect (e : Effect) : bool :=
  match e with
  | Notify ev _ =>
      String.eqb ev "request-started" || String.eqb ev "request-success"
      || String.eqb ev "request-error"
  | Invoke _ _ | Fetch _ _ | Delay _ => true
  | Abort _ | NewAbortController _ | ConsoleError _ => false
  end.

(** The fields [fetchWithRetry] does not touch. *)
Definition same_manager (s s' : State) : Prop :=
  baseUrl s' = baseUrl s ∧ cache s' = cache s
  ∧ abortController s' = abortController s
  ∧ debounceTimer s' = debounceTimer s ∧ config s' = config s
  ∧ listeners s' = listeners s ∧ controllers s' = controllers s
  ∧ aborted s' = aborted s.

(** The effects of [n] failed attempts, each followed by a wait, and
    of one more attempt; [started] is what the [request-started]
    notification adds. *)
Fixpoint retry_trace (started : list Effect) (url : string)
    (signal : option nat) (ms : Z) (n : nat) : list Effect :=
  match n with
  | O => started ++ [Fetch url signal]
  | S n' =>
      started ++ [Fetch url signal; Delay ms]
      ++ retry_trace started url signal ms n'
  end.

(** The state once [fetchData] has superseded the previous request:
    the old controller, if any, is aborted and a new one is in place. *)
Definition after_supersede (s : State) : State :=
  mkState (baseUrl s) (cache s) (requestCount s) (Some (controllers s))
    (debounceTimer s) (config s) (listeners s) (now s) (attempts s)
    (S (controllers s))
    (match abortController s with
     | Some c => c :: aborted s
     | None => aborted s
     end)
    (trace s
     ++ match abortController s with
        | Some c => [Abort c]
        | None => []
        end
     ++ [NewAbortController (controllers s)]).

(** The state after [setCache(key, d)]. *)
Definition after_setCache (key : string) (d : JsValue) (s : State) : State :=
  set_trace (trace s ++ notified s "cache-updated" None)
    (set_cache (Map_set (cache s) key (mkEntry d (now s))) s).

(** The name-value pairs [fetchData] appends to the URL. *)
Definition query_pairs (params : JsObject) : list (string * string) :=
  List.map (fun key => (key, toString (getProp params key))) (Object_keys params).

(** Whether [fetchData] answers from the cache in state [s]. *)
Definition cache_hit (key : string) (useCache : bool) (s : State) : bool :=
  useCache
  && match Map_get (cache s) key with
     | Some entry =>
         (now s - timestamp entry <? cacheExpiry (config s))
         && truthy (data entry)
     | None => false
     end.

(** The state in which [fetchData] reaches the request: an expired
    entry under the key has been evicted by the cache check. *)
Definition after_lookup (key : string) (useCache : bool) (s : State) : State :=
  if useCache then
    match Map_get (cache s) key with
    | Some entry =>
        if now s - timestamp entry <? cacheExpiry (config s) then s
        else set_cache (Map_delete (cache s) key) s
    | None => s
    end
  else s.

(** The record [{ id: 0, title: "intro" }]. *)
Definition numbered_item : JsObject :=
  [("id", JNum 0); ("title", JStr "intro")].

(** ** Sample platforms and states *)

(** A URL class that concatenates without escaping. *)
Definition plain_href (base : string) (pairs : list (string * string))
    : option string :=
  Some (base +:+
        match pairs with
        | [] => ""
        | _ => "?" +:+ String.concat "&"
                 (List.map (fun p => fst p +:+ "=" +:+ snd p) pairs)
        end).

Definition offline : JsError := mkError "TypeError" "Failed to fetch".

Definition superseded : JsError :=
  mkError "AbortError" "The user aborted a request.".

(** A network that is down. *)
Definition net_down : nat -> string -> option nat -> NetReply :=
  fun _ _ _ => mkReply 5 (Rejected offline).

(** A network that answers every request with the same JSON value. *)
Definition net_const (v : JsValue) : nat -> string -> option nat -> NetReply :=
  fun _ _ _ => mkReply 5 (Resolved (mkResponse true 200 "OK" (JsonOk v))).

(** A network on which every request is aborted. *)
Definition net_aborting : nat -> string -> option nat -> NetReply :=
  fun _ _ _ => mkReply 0 (Rejected superseded).

Definition fresh_manager : State :=
  constructor "https://jsonplaceholder.typicode.com" 1000.

(** A manager whose cache holds [v] under [key], stored at time [t]. *)
Definition manager_with (key : string) (v : JsValue) (t : Z) : State :=
  set_cache [(key, mkEntry v t)] fresh_manager.

(** ** Further vocabulary *)

(** The callbacks registered for an event, in the order
    [notifyListeners] calls them. *)
Definition registered (s : State) (event : string) : list nat :=
  match Map_get (listeners s) event with
  | Some cbs => cbs
  | None => []
  end.

Definition is_ConsoleError (e : Effect) : bool :=
  match e with ConsoleError _ => true | _ => false end.

(** The effects of [k] failed attempts, each followed by a wait. *)
Fixpoint failed_rounds (started : list Effect) (url : string)
    (signal : option nat) (ms : Z) (k : nat) : list Effect :=
  match k with
  | O => []
  | S k' =>
      started ++ [Fetch url signal; Delay ms]
      ++ failed_rounds started url signal ms k'
  end.

(** Controller identities are handed out in order: every controller
    that is aborted or in place has already been created. *)
Definition controllers_ok (s : State) : Prop :=
  Forall (fun c => (c < controllers s)%nat) (aborted s)
  ∧ ∀ c, abortController s = Some c → (c < controllers s)%nat.

(** ** Timers and [debounceSearch] *)

Definition set_debounceTimer (t : option nat) (s : State) : State :=
  mkState (baseUrl s) (cache s) (requestCount s) (abortController s) t
    (config s) (listeners s) (now s) (attempts s) (controllers s) (aborted s)
    (trace s).

(** A timer set by [setTimeout(() => callback.apply(this, args), delay)]. *)
Record Timer : Type :=
  mkTimer { timer_id : nat; due : Z; timer_callback : nat;
            timer_args : list JsValue }.

(** The manager with the timers of the platform; [calls] lists the
    callbacks that timers have run, with their arguments. *)
Record Timed : Type :=
  mkTimed { manager : State; pending : list Timer; timers : nat;
            calls : list (nat * list JsValue) }.

Definition setTimeout (callback : nat) (args : list JsValue) (delay : Z)
    (w : Timed) : nat * Timed :=
  (timers w,
   mkTimed (manager w)
     (pending w
      ++ [mkTimer (timers w) (now (manager w) + Z.max 0 delay) callback args])
     (S (timers w)) (calls w)).

(** [clearTimeout(id)]; [null] and the identity of a timer that has run
    or was cleared are ignored. *)
Definition clearTimeout (id : option nat) (w : Timed) : Timed :=
  match id with
  | None => w
  | Some i =>
      mkTimed (manager w)
        (List.filter (fun t => negb (Nat.eqb (timer_id t) i)) (pending w))
        (timers w) (calls w)
  end.

(** The function [debounceSearch(callback, delay)] returns. *)
Record Debounced : Type := mkDebounced { wrapped : nat; wait : Z }.

(** [delay] defaults to [config.debounceDelay]. *)
Definition debounceSearch (callback : nat) (delay : option Z) (s : State)
    : Debounced :=
  mkDebounced callback
    match delay with
    | Some d => d
    | None => debounceDelay (config s)
    end.

(** A call [f(...args)] of a function returned by [debounceSearch]. *)
Definition call_debounced (f : Debounced) (args : list JsValue) (w : Timed)
    : Timed :=
  let w1 := clearTimeout (debounceTimer (manager w)) w in
  let (id, w2) := setTimeout (wrapped f) args (wait f) w1 in
  mkTimed (set_debounceTimer (Some id) (manager w2)) (pending w2) (timers w2)
    (calls w2).

Fixpoint insert_by_due (t : Timer) (l : list Timer) : list Timer :=
  match l with
  | [] => [t]
  | x :: l' => if due t <=? due x then t :: l else x :: insert_by_due t l'
  end.

(** Timers run in the order they fall due, earlier set first. *)
Fixpoint by_due (l : list Timer) : list Timer :=
  match l with
  | [] => []
  | t :: l' => insert_by_due t (by_due l')
  end.

(** [dt] milliseconds pass with nothing else happening: the timers due
    by then run. *)
Definition elapse (dt : Z) (w : Timed) : Timed :=
  let t := now (manager w) + dt in
  mkTimed (set_now t (manager w))
    (List.filter (fun x => negb (due x <=? t)) (pending w))
    (timers w)
    (calls w
     ++ List.map (fun x => (timer_callback x, timer_args x))
          (by_due (List.filter (fun x => due x <=? t) (pending w)))).

(** Calls of debounced functions, each followed by the time that
    passes before the next. *)
Fixpoint burst (cs : list (Debounced * list JsValue * Z)) (w : Timed) : Timed :=
  match cs with
  | [] => w
  | (f, args, gap) :: cs' => burst cs' (elapse gap (call_debounced f args w))
  end.

(** Every pending timer is the one [debounceTimer] refers to. *)
Definition timer_tracked (w : Timed) : Prop :=
  Forall (fun t => debounceTimer (manager w) = Some (timer_id t)) (pending w).

(** ** The page of results shown by the application *)

(** [dataGrid]: the "No data found" notice or the cards, each made from
    an item and its index in the filtered data. *)
Inductive Grid : Type :=
| NoData
| Cards (cards : list (JsObject * Z)).

Record App : Type := mkApp {
  filteredData : list JsObject;
  currentPage : Z;
  itemsPerPage : Z;
  totalPages : Z;
  (* the elements written by the pagination code *)
  dataGrid : Grid;
  totalPagesSpan : Z;
  currentPageSpan : Z;
  prevPage_disabled : bool;
  nextPage_disabled : bool
}.

(** [Math.ceil(a / b)] for integers and [b] other than 0. *)
Definition Math_ceil_div (a b : Z) : Z := - ((- a) / b).

(** [l.slice(start, end)] *)
Definition slice {A} (l : list A) (start stop : Z) : list A :=
  let len := Z.of_nat (length l) in
  let k := if start <? 0 then Z.max (len + start) 0 else Z.min start len in
  let final := if stop <? 0 then Z.max (len + stop) 0 else Z.min stop len in
  firstn (Z.to_nat (final - k)) (skipn (Z.to_nat k) l).

(** The cards of a page: [pageData.forEach((item, index) =>
    createDataCard(item, startIndex + index))]. *)
Fixpoint cards_from (startIndex : Z) (pageData : list JsObject)
    : list (JsObject * Z) :=
  match pageData with
  | [] => []
  | item :: rest => (item, startIndex) :: cards_from (startIndex + 1) rest
  end.

Definition updatePagination (a : App) : App :=
  let total :=
    Math_ceil_div (Z.of_nat (length (filteredData a))) (itemsPerPage a) in
  mkApp (filteredData a) (currentPage a) (itemsPerPage a) total (dataGrid a)
    total (currentPage a) (currentPage a <=? 1) (total <=? currentPage a).

Definition renderData (a : App) : App :=
  let startIndex := (currentPage a - 1) * itemsPerPage a in
  let endIndex := startIndex + itemsPerPage a in
  let pageData := slice (filteredData a) startIndex endIndex in
  mkApp (filteredData a) (currentPage a) (itemsPerPage a) (totalPages a)
    (match pageData with
     | [] => NoData
     | _ => Cards (cards_from startIndex pageData)
     end)
    (totalPagesSpan a) (currentPageSpan a) (prevPage_disabled a)
    (nextPage_disabled a).

Definition set_currentPage (p : Z) (a : App) : App :=
  mkApp (filteredData a) p (itemsPerPage a) (totalPages a) (dataGrid a)
    (totalPagesSpan a) (currentPageSpan a) (prevPage_disabled a)
    (nextPage_disabled a).

Definition previousPage (a : App) : App :=
  if 1 <? currentPage a then
    updatePagination (renderData (set_currentPage (currentPage a - 1) a))
  else a.

Definition nextPage (a : App) : App :=
  if currentPage a <? totalPages a then
    updatePagination (renderData (set_currentPage (currentPage a + 1) a))
  else a.

(** The end of [applyFiltersAndSort]: the filtered data is installed and
    its first page shown. *)
Definition showFiltered (items : list JsObject) (a : App) : App :=
  renderData
    (updatePagination
       (mkApp items 1 (itemsPerPage a) (totalPages a) (dataGrid a)
          (totalPagesSpan a) (currentPageSpan a) (prevPage_disabled a)
          (nextPage_disabled a))).

(** The application as its constructor leaves it, before any data. *)
Definition new_App : App := mkApp [] 1 10 1 NoData 1 1 true true.

Inductive Click : Type := ClickPrevious | ClickNext.

Definition click (a : App) (c : Click) : App :=
  match c with
  | ClickPrevious => previousPage a
  | ClickNext => nextPage a
  end.

(** The data of page [p], as [renderData] cuts it out. *)
Definition page_items (items : list JsObject) (perPage p : Z) : list JsObject :=
  slice items ((p - 1) * perPage) ((p - 1) * perPage + perPage).

(** What is on the screen is what the pagination code would put
    there. *)
Definition shown (a : App) : Prop :=
  renderData a = a ∧ updatePagination a = a.

(** ** Sorting a collection *)

(** The outcome of [aVal < bVal] and [aVal > bVal] in the comparator of
    [sortData], strings having been lowercased: defined here for two
    strings and for two numbers. *)
Definition compare_values (aVal bVal : JsValue) : option comparison :=
  match aVal, bVal with
  | JStr x, JStr y => Some (String.compare (toLowerCase x) (toLowerCase y))
  | JNum x, JNum y => Some (x ?= y)
  | _, _ => None
  end.

(** The comparator of [sortData]: negative, zero or positive. *)
Definition comparator (sortKey : string) (ascending : bool) (a b : JsObject)
    : option Z :=
  match compare_values (getProp a sortKey) (getProp b sortKey) with
  | Some Lt => Some (if ascending then -1 else 1)
  | Some Gt => Some (if ascending then 1 else -1)
  | Some Eq => Some 0
  | None => None
  end.

Definition in_order (sortKey : string) (ascending : bool) (a b : JsObject)
    : bool :=
  match comparator sortKey ascending a b with
  | Some z => z <=? 0
  | None => true
  end.

Fixpoint sort_insert_by (le : JsObject → JsObject → bool) (a : JsObject)
    (l : list JsObject) : list JsObject :=
  match l with
  | [] => [a]
  | x :: l' => if le a x then a :: l else x :: sort_insert_by le a l'
  end.

(** A stable sort: items the comparator calls equal keep their order. *)
Fixpoint stable_sort (le : JsObject → JsObject → bool) (l : list JsObject)
    : list JsObject :=
  match l with
  | [] => []
  | a :: l' => sort_insert_by le a (stable_sort le l')
  end.

Definition is_JStr (v : JsValue) : bool :=
  match v with JStr _ => true | _ => false end.

Definition is_JNum (v : JsValue) : bool :=
  match v with JNum _ => true | _ => false end.

(** The sort field is a string in every item, or a number in every
    item. *)
Definition sortable (items : list JsObject) (sortKey : string) : bool :=
  forallb (fun item => is_JStr (getProp item sortKey)) items
  || forallb (fun item => is_JNum (getProp item sortKey)) items.

(** [sortData(data, sortKey, ascending)]: the value the promise resolves
    with, for a collection of at most one item (the comparator is not
    called) and for a [sortable] one (the comparator is a consistent
    order, so the sorted copy is the stable one).  [None] stands for the
    other collections, on which the comparator throws or coerces its
    operands, and which are not covered here. *)
Definition sortData (items : list JsObject) (sortKey : string)
    (ascending : bool) : option (list JsObject) :=
  match items with
  | [] | [_] => Some items
  | _ =>
      if sortable items sortKey
      then Some (stable_sort (in_order sortKey ascending) items)
      else None
  end.

(** Two items have the same rank under the comparator. *)
Definition same_rank (sortKey : string) (a b : JsObject) : bool :=
  match compare_values (getProp a sortKey) (getProp b sortKey) with
  | Some Eq => true
  | _ => false
  end.

(** A network that fails [k] times and then answers with [v]. *)
Definition net_flaky (k : nat) (v : JsValue)
    : nat → string → option nat → NetReply :=
  fun i _ _ =>
    if (i <? k)%nat then mkReply 5 (Rejected offline)
    else mkReply 5 (Resolved (mkResponse true 200 "OK" (JsonOk v))).

(** A network that fails [k] times and on which the next request is
    aborted. *)
Definition net_abort_after (k : nat) : nat → string → option nat → NetReply :=
  fun i _ _ =>
    if (i <? k)%nat then mkReply 5 (Rejected offline)
    else mkReply 0 (Rejected superseded).

(** A URL class that accepts nothing. *)
Definition no_href (base : string) (pairs : list (string * string))
    : option string := None.

(** Two traces built from the same pieces, up to bracketing. *)
Ltac trace_eq :=
  unfold notified; simpl; rewrite <- ?app_assoc; simpl;
  rewrite <- ?app_assoc; done.

(** * Properties *)

(** ** Sorting of parameter names *)

Lemma sort_insert_Permutation (k : string) (l : list string) :
  sort_insert k l ≡ₚ k :: l.
Proof.
  induction l as [|x l IH]; simpl; [done|].
  destruct (String.leb k x); [done|].
  rewrite IH. apply Permutation_swap.
Qed.

Lemma sort_Permutation (l : list string) : sort l ≡ₚ l.
Proof.
  induction l as [|k l IH]; simpl; [done|].
  by rewrite sort_insert_Permutation, IH.
Qed.

Lemma leb_flip (k x : string) : String.leb k x = false → String.le x k.
Proof.
  intros Hkx. destruct (String.leb_total k x) as [H|H].
  - congruence.
  - unfold String.le. by rewrite H.
Qed.

Lemma sort_insert_Sorted (k : string) (l : list string) :
  Sorted String.le l → Sorted String.le (sort_insert k l).
Proof.
  induction 1 as [|x l Hl IH Hx]; simpl.
  - repeat constructor.
  - destruct (String.leb k x) eqn:Hkx.
    + constructor; [by constructor|]. constructor.
      unfold String.le. by rewrite Hkx.
    + constructor; [done|].
      destruct l as [|y l]; simpl in *.
      * constructor. by apply leb_flip.
      * destruct (String.leb k y); constructor;
          [by apply leb_flip | by inversion Hx].
Qed.

Lemma sort_Sorted (l : list string) : Sorted String.le (sort l).
Proof.
  induction l as [|k l IH]; simpl; [constructor|].
  by apply sort_insert_Sorted.
Qed.

Lemma sort_unique (l1 l2 : list string) : l1 ≡ₚ l2 → sort l1 = sort l2.
Proof.
  intros Hp. apply (Sorted_unique String.le); try apply sort_Sorted.
  by rewrite !sort_Permutation.
Qed.

(** ** Maps and objects *)

Lemma getProp_Map_get (o : JsObject) (k : string) :
  getProp o k = default JUndefined (Map_get o k).
Proof.
  induction o as [|[k' v] o IH]; simpl; [done|].
  by destruct (String.eqb k' k).
Qed.

Lemma Map_get_keys {V} (m : JsMap V) (k : string) :
  k ∈ Map_keys m ↔ is_Some (Map_get m k).
Proof.
  induction m as [|[k' v] m IH]; simpl.
  - split; [by intros ?%elem_of_nil | by intros [? ?]].
  - rewrite elem_of_cons. destruct (String.eqb_spec k' k) as [->|Hne].
    + split; [by eexists | by left].
    + rewrite <- IH. split; [|by right]. intros [?|?]; [by subst|done].
Qed.

Lemma Map_get_delete {V} (m : JsMap V) (k : string) :
  Map_get (Map_delete m k) k = None.
Proof.
  induction m as [|[k' v] m IH]; simpl; [done|].
  destruct (String.eqb k' k) eqn:E; simpl; [done|]. by rewrite E.
Qed.

Lemma Map_get_delete_ne {V} (m : JsMap V) (k k' : string) :
  k ≠ k' → Map_get (Map_delete m k) k' = Map_get m k'.
Proof.
  intros Hne. induction m as [|[k0 v] m IH]; simpl; [done|].
  destruct (String.eqb_spec k0 k) as [->|]; simpl.
  - destruct (String.eqb_spec k k'); [done|]. apply IH.
  - by rewrite IH.
Qed.

Lemma Map_get_set {V} (m : JsMap V) (k : string) (v : V) :
  Map_get (Map_set m k v) k = Some v.
Proof.
  induction m as [|[k' v'] m IH]; simpl.
  - by rewrite String.eqb_refl.
  - destruct (String.eqb k' k) eqn:E; simpl.
    + by rewrite String.eqb_refl.
    + by rewrite E.
Qed.

Lemma Map_get_set_ne {V} (m : JsMap V) (k k' : string) (v : V) :
  k ≠ k' → Map_get (Map_set m k v) k' = Map_get m k'.
Proof.
  intros Hne. induction m as [|[k0 v0] m IH]; simpl.
  - by destruct (String.eqb_spec k k').
  - destruct (String.eqb_spec k0 k) as [->|]; simpl.
    + by destruct (String.eqb_spec k k').
    + by rewrite IH.
Qed.

(** Two objects with the same properties list the same names, in some
    order. *)
Lemma same_props_keys (p1 p2 : JsObject) :
  NoDup (Object_keys p1) → NoDup (Object_keys p2) →
  (∀ k, Map_get p1 k = Map_get p2 k) →
  Object_keys p1 ≡ₚ Object_keys p2.
Proof.
  intros H1 H2 Heq. apply NoDup_Permutation; [done..|].
  intros k. change (k ∈ Map_keys p1 ↔ k ∈ Map_keys p2).
  by rewrite !Map_get_keys, Heq.
Qed.

(** ** Strings *)

Lemma trimEnd_empty (s : string) :
  trimEnd s = "" ↔ whitespaceOnly s = true.
Proof.
  induction s as [|c s IH]; simpl; [done|].
  destruct (isWhiteSpace c); simpl.
  - destruct (String.eqb_spec (trimEnd s) "") as [E|E]; rewrite <- IH.
    + done.
    + split; [done|]. intros; contradiction.
  - split; discriminate.
Qed.

Lemma whitespaceOnly_trimStart (s : string) :
  whitespaceOnly (trimStart s) = whitespaceOnly s.
Proof.
  induction s as [|c s IH]; simpl; [done|].
  destruct (isWhiteSpace c) eqn:E; simpl; [done|]. by rewrite E.
Qed.

(** [!query.trim()] holds exactly for the empty and the all-blank query. *)
Lemma trim_empty (s : string) :
  negb (truthy (JStr (trim s))) = whitespaceOnly s.
Proof.
  unfold trim; simpl. rewrite negb_involutive.
  rewrite <- whitespaceOnly_trimStart.
  destruct (String.eqb_spec (trimEnd (trimStart s)) "") as [E|E].
  - symmetry. by apply trimEnd_empty.
  - destruct (whitespaceOnly (trimStart s)) eqn:W; [|done].
    by apply trimEnd_empty in W.
Qed.

Lemma append_cons (c : ascii) (a b : string) :
  String c a +:+ b = String c (a +:+ b).
Proof. reflexivity. Qed.

Lemma prefix_app (q s : string) :
  String.prefix q s = true ↔ ∃ b, s = q +:+ b.
Proof.
  revert s. induction q as [|c q IH]; intros s; simpl.
  - destruct s; split; eauto.
  - destruct s as [|c' s]; simpl.
    + split; [done|]. by intros [b ?].
    + destruct (ascii_dec c c') as [->|Hne].
      * rewrite IH. split; intros [b Hb]; exists b;
          rewrite append_cons in *; congruence.
      * split; [done|]. intros [b Hb]. rewrite append_cons in Hb. congruence.
Qed.

(** [includes] is the substring test. *)
Lemma includes_substring (s q : string) :
  includes s q = true ↔ ∃ a b, s = a +:+ q +:+ b.
Proof.
  induction s as [|c s IH].
  - change (includes "" q) with (String.prefix q "" || false).
    rewrite orb_false_r, prefix_app. split.
    + intros [b Hb]. by exists "", b.
    + intros [a [b Hab]]. destruct a; [eauto|done].
  - change (includes (String c s) q)
      with (String.prefix q (String c s) || includes s q).
    rewrite orb_true_iff, IH, prefix_app. split.
    + intros [[b Hb]|[a [b Hab]]].
      * by exists "", b.
      * exists (String c a), b. by rewrite append_cons, Hab.
    + intros [a [b Hab]]. destruct a as [|c' a].
      * left. eauto.
      * right. exists a, b. rewrite append_cons in Hab. congruence.
Qed.

(** ** Conversions on sample values *)

Example toString_samples :
  toString (JNum 0) = "0" ∧ toString (JNum (-12)) = "-12"
  ∧ toString (JBool false) = "false"
  ∧ toString (JArr [JNum 1; JNull; JStr "a"]) = "1,,a"
  ∧ toString (JObj [("a", JNum 1)]) = "[object Object]".
Proof. by repeat split. Qed.

Example string_samples :
  toLowerCase "Sunt AUT Facere" = "sunt aut facere"
  ∧ trim "  a b  " = "a b" ∧ trim "   " = ""
  ∧ includes "sunt aut facere" "aut" = true
  ∧ includes "sunt aut facere" "Aut" = false
  ∧ sort ["b"; "_start"; "a"; "_limit"; "B"]
    = ["B"; "_limit"; "_start"; "a"; "b"].
Proof. by repeat split. Qed.

(** The falsy values: [undefined], [null], [false], [0] and [""]. *)
Lemma falsy_values (v : JsValue) :
  truthy v = false
  ↔ v = JUndefined ∨ v = JNull ∨ v = JBool false ∨ v = JNum 0 ∨ v = JStr "".
Proof.
  split.
  - destruct v as [| |[]|n|s| |]; simpl; try discriminate; auto.
    + intros H. apply negb_false_iff, Z.eqb_eq in H. subst. auto 6.
    + intros H. apply negb_false_iff, String.eqb_eq in H. subst. auto 6.
  - by intros [->|[->|[->|[->| ->]]]].
Qed.

(** ** Cache keys *)

Lemma append_empty_r (s : string) : s +:+ "" = s.
Proof. induction s as [|c s IH]; [done|]. by rewrite append_cons, IH. Qed.

Lemma pair_text_nonempty (k v : string) : k +:+ "=" +:+ v ≠ "".
Proof. by destruct k. Qed.

Lemma concat_nonempty (sep x : string) (xs : list string) :
  x ≠ "" → String.concat sep (x :: xs) ≠ "".
Proof.
  intros Hx. destruct xs as [|y xs]; simpl; [done|].
  destruct x; [done|]. by rewrite append_cons.
Qed.

Lemma generateCacheKey_as_documented (endpoint : string) (params : JsObject) :
  generateCacheKey endpoint params = generateCacheKey_documented endpoint params.
Proof.
  unfold generateCacheKey, generateCacheKey_documented.
  destruct params as [|kv params]; [by rewrite append_empty_r|].
  set (keys := sort (Object_keys (kv :: params))).
  assert (keys ≠ []) as Hkeys.
  { intros E. pose proof (sort_Permutation (Object_keys (kv :: params))) as Hp.
    fold keys in Hp. rewrite E in Hp. by apply Permutation_nil_cons in Hp. }
  destruct keys as [|k keys]; [done|].
  set (paramStr := String.concat "&" _).
  assert (paramStr ≠ "") as Hne
    by (apply concat_nonempty, pair_text_nonempty).
  simpl. by destruct (String.eqb_spec paramStr "").
Qed.

(** C4: the cache key does not depend on the order in which the
    parameters were inserted: two parameter objects with the same
    properties give the same key, which is the endpoint followed, when
    there are parameters, by [?] and the [key=value] pairs joined by [&]
    in ascending order of the names. *)
Theorem generateCacheKey_order_invariant
    (endpoint : string) (p1 p2 : JsObject) :
  NoDup (Object_keys p1) → NoDup (Object_keys p2) →
  (∀ k, Map_get p1 k = Map_get p2 k) →
  generateCacheKey endpoint p1 = generateCacheKey endpoint p2
  ∧ generateCacheKey endpoint p1 = generateCacheKey_documented endpoint p1
  ∧ Sorted String.le (sort (Object_keys p1))
  ∧ sort (Object_keys p1) ≡ₚ Object_keys p1.
Proof.
  intros H1 H2 Heq. split; [|split; [|split]].
  - unfold generateCacheKey.
    rewrite (sort_unique _ _ (same_props_keys p1 p2 H1 H2 Heq)).
    erewrite map_ext; [reflexivity|].
    intros k. simpl. by rewrite !getProp_Map_get, Heq.
  - apply generateCacheKey_as_documented.
  - apply sort_Sorted.
  - apply sort_Permutation.
Qed.

Lemma generateCacheKey_order_invariant_witness :
  generateCacheKey "/posts" [("a", JNum 1); ("b", JNum 2)]
  = generateCacheKey "/posts" [("b", JNum 2); ("a", JNum 1)]
  ∧ generateCacheKey "/posts" [("a", JNum 1); ("b", JNum 2)] = "/posts?a=1&b=2".
Proof.
  destruct (generateCacheKey_order_invariant "/posts"
              [("a", JNum 1); ("b", JNum 2)] [("b", JNum 2); ("a", JNum 1)])
    as [Hsame [Hdoc _]].
  - by apply (bool_decide_unpack _).
  - by apply (bool_decide_unpack _).
  - intros k. cbn [Map_get].
    destruct (String.eqb_spec "a" k) as [<-|]; [done|].
    by destruct (String.eqb_spec "b" k).
  - split; [exact Hsame|]. rewrite Hdoc. reflexivity.
Defined.

(** ** Cache reads *)

Lemma getCache_lookup (key : string) (s : State) :
  getCache key s
  = match Map_get (cache s) key with
    | Some entry =>
        if now s - timestamp entry <? cacheExpiry (config s)
        then (Normal (data entry), s)
        else (Normal JNull, set_cache (Map_delete (cache s) key) s)
    | None => (Normal JNull, s)
    end.
Proof.
  unfold getCache, isCacheValid, bind, get, modify, ret. simpl.
  destruct (Map_get (cache s) key) as [entry|]; [|done].
  by destruct (_ <? _).
Qed.

(** C2: [getCache] returns the data of a present entry only while its
    age is below [cacheExpiry]; an expired entry is deleted and the
    result is [null]; an absent key gives [null] and changes nothing. *)
Theorem getCache_never_stale (key : string) (s : State) :
  match Map_get (cache s) key with
  | None => getCache key s = (Normal JNull, s)
  | Some entry =>
      if cacheExpiry (config s) <=? now s - timestamp entry
      then getCache key s
           = (Normal JNull, set_cache (Map_delete (cache s) key) s)
           ∧ Map_get (Map_delete (cache s) key) key = None
      else getCache key s = (Normal (data entry), s)
  end.
Proof.
  rewrite getCache_lookup.
  destruct (Map_get (cache s) key) as [entry|]; [|done].
  destruct (Z.leb_spec (cacheExpiry (config s)) (now s - timestamp entry))
    as [Hold|Hfresh].
  - replace (_ <? _) with false by (symmetry; apply Z.ltb_ge; lia).
    split; [done|]. apply Map_get_delete.
  - replace (_ <? _) with true by (symmetry; apply Z.ltb_lt; lia). done.
Qed.

(** ** Searching *)

Lemma matches_iff (query : string) (fields : list string) (item : JsObject) :
  matches query fields item = true ↔
  ∃ field, field ∈ fields
    ∧ truthy (getProp item field) = true
    ∧ ∃ a b, toLowerCase (toString (getProp item field))
             = a +:+ toLowerCase query +:+ b.
Proof.
  unfold matches. rewrite existsb_exists. split.
  - intros [field [Hin [Ht Hi]%andb_true_iff]]. exists field.
    split; [by apply list_elem_of_In|]. split; [done|].
    by apply includes_substring.
  - intros [field [Hin [Ht Hi]]]. exists field.
    split; [by apply list_elem_of_In|]. apply andb_true_iff.
    split; [done|]. by apply includes_substring.
Qed.

(** The documented search keeps an item whose field is the number 0
    when asked for "0"; [searchData] skips every falsy field value. *)
Lemma searchData_skips_falsy_values :
  searchData [numbered_item] "0" ["id"] = []
  ∧ includes (toLowerCase (toString (getProp numbered_item "id")))
      (toLowerCase "0") = true
  ∧ searchData_documented [numbered_item] "0" ["id"] = [numbered_item].
Proof. repeat split; reflexivity. Qed.

(** C6 (amended): for an empty or all-blank query [searchData] returns
    the input list itself; otherwise it returns, in their original
    order, exactly the items having a field among [fields] whose value
    is truthy and whose text, lowercased, contains the lowercased query
    as a substring. *)
Theorem searchData_truthy_fields
    (items : list JsObject) (query : string) (fields : list string) :
  searchData items query fields
  = (if whitespaceOnly query then items
     else List.filter (matches query fields) items)
  ∧ ∀ item, matches query fields item = true ↔
      ∃ field, field ∈ fields
        ∧ truthy (getProp item field) = true
        ∧ ∃ a b, toLowerCase (toString (getProp item field))
                 = a +:+ toLowerCase query +:+ b.
Proof.
  split; [|apply matches_iff].
  unfold searchData. rewrite trim_empty.
  by destruct (whitespaceOnly query).
Qed.

(** ** Statistics *)

(** The documented record has a field [cachedKeys]; the record built
    by [getStats] has none. *)
Lemma getStats_has_no_cachedKeys :
  let s := manager_with "/posts" (JArr []) 1000 in
  ∃ stats, getStats s = (Normal stats, s)
    ∧ getProp stats "cachedKeys" = JUndefined
    ∧ getProp (stats_documented s) "cachedKeys" = JArr [JStr "/posts"]
    ∧ stats ≠ stats_documented s.
Proof. eexists. repeat split; try reflexivity. discriminate. Qed.

(** C8 (amended): [getStats] leaves the state unchanged and returns a
    record with exactly the fields [cacheSize] (the number of cache
    entries), [requestCount] (the request counter) and [cachedItems]
    (the cache keys, in insertion order). *)
Theorem getStats_snapshot (s : State) :
  getStats s
  = (Normal [("cacheSize", JNum (Z.of_nat (length (cache s))));
             ("requestCount", JNum (requestCount s));
             ("cachedItems", JArr (List.map JStr (List.map fst (cache s))))],
     s)
  ∧ length (List.map JStr (List.map fst (cache s))) = length (cache s)
  ∧ ∀ key, JStr key ∈ List.map JStr (List.map fst (cache s))
           ↔ is_Some (Map_get (cache s) key).
Proof.
  split; [done|]. split; [by rewrite !length_map|].
  intros key. rewrite <- Map_get_keys. unfold Map_keys.
  rewrite !list_elem_of_In, in_map_iff. split.
  - by intros [k [[= ->] Hk]].
  - intros Hk. by exists key.
Qed.

(** ** One attempt *)

Lemma notifyListeners_run (event : string) (payload : option JsError) (s : State) :
  notifyListeners event payload s
  = (Normal tt, set_trace (trace s ++ notified s event payload) s).
Proof.
  unfold notifyListeners, notified, bind, log, get, modify, ret; simpl.
  destruct (Map_get (listeners s) event);
    unfold set_trace; simpl; by rewrite <- ?app_assoc.
Qed.

Section Requests.
Variable net : nat → string → option nat → NetReply.

Lemma attempt_run (url : string) (signal : option nat) (s : State) :
  attempt net url signal s
  = (attempt_result (net (attempts s) url signal),
     after_attempt url signal (net (attempts s) url signal) s).
Proof.
  unfold attempt, fetch, json, when, bind, log, get, modify, ret, throw.
  rewrite notifyListeners_run. simpl.
  unfold attempt_result, after_attempt.
  destruct (net (attempts s) url signal) as [dt [e|[[] st txt [v|e]]]];
    simpl; rewrite ?notifyListeners_run; simpl;
    unfold set_trace, set_attempts, set_now, set_requestCount; simpl;
    by rewrite <- ?app_assoc, ?app_nil_r.
Qed.

Lemma fetchWithRetry_step (url : string) (signal : option nat)
    (retries : Z) (s : State) :
  fetchWithRetry net url signal retries s
  = let reply := net (attempts s) url signal in
    let s1 := after_attempt url signal reply s in
    match attempt_result reply with
    | Normal d => (Normal d, s1)
    | Throw error =>
        if String.eqb (name error) "AbortError" then (Throw error, s1)
        else if 0 <? retries then
          fetchWithRetry net url signal (retries - 1)
            (after_delay (retryDelay (config s)) s1)
        else
          (Throw error,
           set_trace (trace s1 ++ notified s1 "request-error" (Some error)) s1)
    end.
Proof.
  simp fetchWithRetry. rewrite attempt_run. cbn zeta.
  set (s1 := after_attempt _ _ _ _).
  destruct (attempt_result _) as [d|error]; simpl; [done|].
  destruct (String.eqb _ _); simpl; [done|].
  destruct (Logic.inspect (0 <? retries)) as [[] E]; rewrite E; simpl.
  - done.
  - unfold bind. by rewrite notifyListeners_run.
Qed.
End Requests.

(** ** What a request leaves alone *)

Lemma same_manager_trans (s1 s2 s3 : State) :
  same_manager s1 s2 → same_manager s2 s3 → same_manager s1 s3.
Proof.
  unfold same_manager. intros (?&?&?&?&?&?&?&?) (?&?&?&?&?&?&?&?).
  repeat split; congruence.
Qed.

Lemma forallb_invoke (P : Effect → bool) (p : option JsError) (cbs : list nat) :
  (∀ cb, P (Invoke cb p) = true) →
  forallb P (List.map (fun cb => Invoke cb p) cbs) = true.
Proof. intros HP. induction cbs; simpl; [done|]. by rewrite HP. Qed.

Lemma notified_request_effect (s : State) (event : string) (p : option JsError) :
  request_effect (Notify event p) = true →
  forallb request_effect (notified s event p) = true.
Proof.
  intros Hev. unfold notified. cbn [forallb]. rewrite Hev. simpl.
  destruct (Map_get (listeners s) event); [|done].
  by apply forallb_invoke.
Qed.

Section Frame.
Variable net : nat → string → option nat → NetReply.

Lemma after_attempt_same (url : string) (signal : option nat)
    (reply : NetReply) (s : State) :
  same_manager s (after_attempt url signal reply s).
Proof. by repeat split. Qed.

Lemma after_attempt_effects (url : string) (signal : option nat)
    (reply : NetReply) (s : State) :
  ∃ delta, trace (after_attempt url signal reply s) = trace s ++ delta
    ∧ forallb request_effect delta = true.
Proof.
  eexists. split; [reflexivity|].
  rewrite !forallb_app, notified_request_effect by done. simpl.
  destruct (attempt_result reply); [|done].
  by rewrite notified_request_effect.
Qed.

(** [fetchWithRetry] touches the request counter, the clock, the
    network and the trace, and nothing else; what it adds to the
    trace are notifications of the three request events, listener
    calls, network calls and waits. *)
Lemma fetchWithRetry_frame (url : string) (signal : option nat)
    (retries : Z) (s : State) :
  same_manager s (fetchWithRetry net url signal retries s).2
  ∧ ∃ delta,
      trace (fetchWithRetry net url signal retries s).2 = trace s ++ delta
      ∧ forallb request_effect delta = true.
Proof.
  remember (Z.to_nat retries) as n eqn:Hn.
  revert retries s Hn. induction n as [|n IH]; intros retries s Hn;
    rewrite fetchWithRetry_step; cbn zeta;
    set (reply := net (attempts s) url signal);
    destruct (after_attempt_effects url signal reply s) as (d1 & Hd1 & Hr1);
    pose proof (after_attempt_same url signal reply s) as Hsame;
    remember (after_attempt url signal reply s) as s1 eqn:Hs1; clear Hs1;
    (destruct (attempt_result reply) as [d|error]; [by eauto|]);
    (destruct (String.eqb (name error) "AbortError"); [by eauto|]);
    destruct (Z.ltb_spec 0 retries) as [Hpos|Hneg]; try lia.
  - split; [exact Hsame|]. simpl. rewrite Hd1.
    exists (d1 ++ notified s1 "request-error" (Some error)).
    rewrite app_assoc. split; [done|].
    by rewrite forallb_app, Hr1, notified_request_effect.
  - destruct (IH (retries - 1) (after_delay (retryDelay (config s)) s1))
      as (Hs2 & d2 & Hd2 & Hr2); [lia|].
    split.
    + eapply same_manager_trans; [exact Hsame|].
      eapply same_manager_trans; [|exact Hs2]. by repeat split.
    + rewrite Hd2. simpl. rewrite Hd1.
      exists (d1 ++ [Delay (retryDelay (config s))] ++ d2).
      rewrite !app_assoc. split; [done|].
      by rewrite !forallb_app, Hr1, Hr2.
Qed.
End Frame.

(** ** Counting effects *)

Lemma filter_invoke (P : Effect → bool) (p : option JsError) (cbs : list nat) :
  (∀ cb, P (Invoke cb p) = false) →
  List.filter P (List.map (fun cb => Invoke cb p) cbs) = [].
Proof. intros HP. induction cbs; simpl; [done|]. by rewrite HP. Qed.

Lemma filter_notified (P : Effect → bool) (s : State) (event : string)
    (p : option JsError) :
  (∀ cb, P (Invoke cb p) = false) →
  List.filter P (notified s event p)
  = if P (Notify event p) then [Notify event p] else [].
Proof.
  intros HP. unfold notified. cbn [List.filter].
  assert (List.filter P
            match Map_get (listeners s) event with
            | Some cbs => List.map (fun cb => Invoke cb p) cbs
            | None => []
            end = []) as ->; [|done].
  destruct (Map_get (listeners s) event); [|done]. by apply filter_invoke.
Qed.

Lemma retry_trace_fetches (s : State) (url : string) (signal : option nat)
    (ms : Z) (n : nat) :
  List.filter is_Fetch
    (retry_trace (notified s "request-started" None) url signal ms n)
  = List.repeat (Fetch url signal) (S n).
Proof.
  induction n as [|n IH]; cbn [retry_trace];
    rewrite !List.filter_app, filter_notified by done; simpl; [done|].
  by rewrite IH.
Qed.

Lemma retry_trace_delays (s : State) (url : string) (signal : option nat)
    (ms : Z) (n : nat) :
  List.filter is_Delay
    (retry_trace (notified s "request-started" None) url signal ms n)
  = List.repeat (Delay ms) n.
Proof.
  induction n as [|n IH]; cbn [retry_trace];
    rewrite !List.filter_app, filter_notified by done; simpl; [done|].
  by rewrite IH.
Qed.

Lemma retry_trace_started (s : State) (url : string) (signal : option nat)
    (ms : Z) (n : nat) :
  List.filter (is_Notify "request-started")
    (retry_trace (notified s "request-started" None) url signal ms n)
  = List.repeat (Notify "request-started" None) (S n).
Proof.
  induction n as [|n IH]; cbn [retry_trace];
    rewrite !List.filter_app, filter_notified by done; simpl; [done|].
  by rewrite IH.
Qed.

Lemma retry_trace_no_error (s : State) (url : string) (signal : option nat)
    (ms : Z) (n : nat) :
  List.filter (is_Notify "request-error")
    (retry_trace (notified s "request-started" None) url signal ms n)
  = [].
Proof.
  induction n as [|n IH]; cbn [retry_trace];
    rewrite !List.filter_app, filter_notified by done; simpl; [done|].
  by rewrite IH.
Qed.

(** ** Retries *)

Section Retry.
Variable net : nat → string → option nat → NetReply.
Variables (url : string) (signal : option nat).

(** [n] retries left and every attempt failing: [n + 1] attempts. *)
Lemma retry_loop_fails (n : nat) :
  ∀ (r : Z) (s : State),
    Z.to_nat r = n → 0 ≤ r →
    (∀ i, (attempts s ≤ i ≤ attempts s + n)%nat →
          ∃ e, attempt_result (net i url signal) = Throw e
               ∧ name e ≠ "AbortError") →
    ∃ e s',
      fetchWithRetry net url signal r s = (Throw e, s')
      ∧ attempt_result (net (attempts s + n)%nat url signal) = Throw e
      ∧ attempts s' = (attempts s + S n)%nat
      ∧ requestCount s' = requestCount s + Z.of_nat (S n)
      ∧ trace s'
        = trace s
          ++ retry_trace (notified s "request-started" None) url signal
               (retryDelay (config s)) n
          ++ notified s "request-error" (Some e).
Proof.
  induction n as [|n IH]; intros r s Hn Hr Hfail;
    rewrite fetchWithRetry_step; cbn zeta;
    (destruct (Hfail (attempts s)) as (e0 & He0 & Hname); [lia|]);
    rewrite He0; apply String.eqb_neq in Hname; rewrite Hname.
  - replace (0 <? r) with false by (symmetry; apply Z.ltb_ge; lia).
    eexists _, _. split; [reflexivity|].
    rewrite Nat.add_0_r. split; [done|]. simpl.
    split; [lia|]. split; [lia|].
    unfold after_attempt. rewrite He0. trace_eq.
  - replace (0 <? r) with true by (symmetry; apply Z.ltb_lt; lia).
    set (s2 := after_delay _ _).
    destruct (IH (r - 1) s2) as (e & s' & Hrun & Hlast & Hatt & Hcount & Htrace).
    + lia.
    + lia.
    + intros i Hi. apply Hfail. simpl in Hi. lia.
    + exists e, s'. split; [done|].
      replace (attempts s + S n)%nat with (attempts s2 + n)%nat
        by (simpl; lia).
      split; [done|]. split; [simpl in Hatt; lia|].
      split; [simpl in Hcount; lia|].
      rewrite Htrace. unfold s2, after_delay, after_attempt. rewrite He0.
      trace_eq.
Qed.

(** C1: with a retry budget [r >= 0] and every attempt failing with
    an error other than [AbortError], [fetchWithRetry] issues exactly
    [r + 1] network calls, raises [requestCount] by one per attempt and
    so by [r + 1], waits [r] times, notifies [request-error] once and
    rejects with the error of the last attempt. *)
Theorem fetchWithRetry_exhausts_budget (r : Z) (s : State) :
  0 ≤ r →
  (∀ i, (attempts s ≤ i ≤ attempts s + Z.to_nat r)%nat →
        ∃ e, attempt_result (net i url signal) = Throw e
             ∧ name e ≠ "AbortError") →
  ∃ e s' delta,
    fetchWithRetry net url signal r s = (Throw e, s')
    ∧ attempt_result (net (attempts s + Z.to_nat r)%nat url signal) = Throw e
    ∧ Z.of_nat (attempts s') = Z.of_nat (attempts s) + r + 1
    ∧ requestCount s' = requestCount s + r + 1
    ∧ (∀ s0, requestCount (attempt net url signal s0).2 = requestCount s0 + 1
             ∧ attempts (attempt net url signal s0).2 = S (attempts s0))
    ∧ trace s' = trace s ++ delta
    ∧ List.filter is_Fetch delta
      = List.repeat (Fetch url signal) (Z.to_nat (r + 1))
    ∧ List.filter (is_Notify "request-started") delta
      = List.repeat (Notify "request-started" None) (Z.to_nat (r + 1))
    ∧ List.filter is_Delay delta
      = List.repeat (Delay (retryDelay (config s))) (Z.to_nat r)
    ∧ List.filter (is_Notify "request-error") delta
      = [Notify "request-error" (Some e)].
Proof.
  intros Hr Hfail.
  destruct (retry_loop_fails (Z.to_nat r) r s eq_refl Hr Hfail)
    as (e & s' & Hrun & Hlast & Hatt & Hcount & Htrace).
  exists e, s'. eexists. split; [exact Hrun|]. split; [exact Hlast|].
  split; [lia|]. split; [lia|].
  split; [by intros s0; rewrite attempt_run|].
  split; [exact Htrace|].
  replace (Z.to_nat (r + 1)) with (S (Z.to_nat r)) by lia.
  rewrite !List.filter_app, retry_trace_fetches, retry_trace_started,
    retry_trace_delays, retry_trace_no_error, !filter_notified by done.
  simpl. by rewrite !app_nil_r.
Qed.

(** C3: an attempt that fails with [AbortError] ends the call at
    once with that error: one network call, no wait, no further
    attempt whatever the budget, and no [request-error]
    notification. *)
Theorem fetchWithRetry_abort_propagates (r : Z) (s : State) (e : JsError) :
  attempt_result (net (attempts s) url signal) = Throw e →
  name e = "AbortError" →
  ∃ s' delta,
    fetchWithRetry net url signal r s = (Throw e, s')
    ∧ attempts s' = S (attempts s)
    ∧ requestCount s' = requestCount s + 1
    ∧ now s' = now s + elapsed (net (attempts s) url signal)
    ∧ trace s' = trace s ++ delta
    ∧ List.filter is_Fetch delta = [Fetch url signal]
    ∧ List.filter is_Delay delta = []
    ∧ List.filter (is_Notify "request-error") delta = [].
Proof.
  intros He Hname. rewrite fetchWithRetry_step; cbn zeta.
  rewrite He, Hname. cbn [String.eqb Ascii.eqb Bool.eqb].
  exists (after_attempt url signal (net (attempts s) url signal) s),
    (notified s "request-started" None ++ [Fetch url signal]).
  split; [reflexivity|]. do 3 (split; [reflexivity|]).
  split; [unfold after_attempt; rewrite He; trace_eq|].
  rewrite !List.filter_app, !filter_notified by done.
  by repeat split.
Qed.
End Retry.

(** ** Cached fetch *)

Section Fetch.
Variable net : nat → string → option nat → NetReply.
Variable URL_href : string → list (string * string) → option string.

Lemma setCache_run (key : string) (d : JsValue) (s : State) :
  setCache key d s = (Normal tt, after_setCache key d s).
Proof.
  unfold setCache, bind, modify. by rewrite notifyListeners_run.
Qed.

Lemma fetchData_request_run (key endpoint : string) (params : JsObject)
    (useCache : bool) (s : State) :
  fetchData_request net URL_href key endpoint params useCache s
  = match URL_href (baseUrl s +:+ endpoint) (query_pairs params) with
    | None => (Throw (mkError "TypeError" "Invalid URL"), after_supersede s)
    | Some url =>
        match fetchWithRetry net url (Some (controllers s))
                (maxRetries (config s)) (after_supersede s) with
        | (Normal d, s2) =>
            (Normal d, if useCache then after_setCache key d s2 else s2)
        | (Throw e, s2) =>
            (Throw e,
             if String.eqb (name e) "AbortError" then s2
             else set_trace (trace s2 ++ [ConsoleError e]) s2)
        end
    end.
Proof.
  unfold fetchData_request, cancelPendingRequests, new_AbortController,
    try_catch, when, bind, log, get, modify, ret, throw.
  fold (query_pairs params).
  destruct (abortController s) as [c|] eqn:Hc; simpl;
    (destruct (URL_href _ _) as [url|];
     [|unfold after_supersede; rewrite Hc; simpl;
       unfold set_abortController, set_controllers, set_trace, set_aborted;
       simpl; by rewrite <- ?app_assoc]).
  all: match goal with
       | |- context [fetchWithRetry net ?u ?sg ?r ?st] =>
           replace st with (after_supersede s)
             by (unfold after_supersede; rewrite Hc; simpl;
                 unfold set_abortController, set_controllers, set_trace,
                   set_aborted; simpl; by rewrite <- ?app_assoc)
       end.
  all: destruct (fetchWithRetry net url _ _ _) as [[d|e] s2]; simpl;
    [destruct useCache; simpl; by rewrite ?setCache_run
    |by destruct (String.eqb (name e) "AbortError")].
Qed.

Lemma fetchData_hit (endpoint : string) (params : JsObject) (s : State)
    (entry : CacheEntry) :
  Map_get (cache s) (generateCacheKey endpoint params) = Some entry →
  now s - timestamp entry < cacheExpiry (config s) →
  truthy (data entry) = true →
  fetchData net URL_href endpoint params true s
  = (Normal (data entry),
     set_trace (trace s ++ notified s "cache-hit" None) s).
Proof.
  intros Hentry Hfresh Htruthy.
  unfold fetchData, getCache, isCacheValid, bind, get, ret. simpl.
  rewrite Hentry.
  replace (_ <? _) with true by (symmetry; apply Z.ltb_lt; lia).
  by rewrite Htruthy, notifyListeners_run.
Qed.

Lemma fetchData_miss (endpoint : string) (params : JsObject)
    (useCache : bool) (s : State) :
  cache_hit (generateCacheKey endpoint params) useCache s = false →
  fetchData net URL_href endpoint params useCache s
  = fetchData_request net URL_href (generateCacheKey endpoint params)
      endpoint params useCache
      (after_lookup (generateCacheKey endpoint params) useCache s).
Proof.
  unfold cache_hit, after_lookup, fetchData.
  destruct useCache; [|done]. simpl.
  unfold getCache, isCacheValid, bind, get, modify, ret. simpl.
  destruct (Map_get (cache s) _) as [entry|]; [|done].
  destruct (_ <? _); simpl; [|done]. by intros ->.
Qed.

Lemma cache_hit_entry (key : string) (useCache : bool) (s : State) :
  cache_hit key useCache s = true →
  useCache = true
  ∧ ∃ entry, Map_get (cache s) key = Some entry
      ∧ now s - timestamp entry < cacheExpiry (config s)
      ∧ truthy (data entry) = true.
Proof.
  unfold cache_hit. intros [-> H]%andb_true_iff. split; [done|].
  destruct (Map_get (cache s) key) as [entry|]; [|done].
  apply andb_true_iff in H as [Hf%Z.ltb_lt Ht]. eauto.
Qed.

(** The cache plays no part in [fetchWithRetry]. *)
Lemma fetchWithRetry_set_cache (url : string) (signal : option nat)
    (retries : Z) (c : JsMap CacheEntry) (s : State) :
  fetchWithRetry net url signal retries (set_cache c s)
  = ((fetchWithRetry net url signal retries s).1,
     set_cache c (fetchWithRetry net url signal retries s).2).
Proof.
  remember (Z.to_nat retries) as n eqn:Hn.
  revert retries s Hn. induction n as [|n IH]; intros retries s Hn;
    rewrite !(fetchWithRetry_step net url signal retries); cbn zeta;
    change (attempts (set_cache c s)) with (attempts s);
    change (config (set_cache c s)) with (config s);
    (destruct (attempt_result _) as [d|error] eqn:Hres; [done|]);
    (destruct (String.eqb (name error) "AbortError"); [done|]);
    destruct (Z.ltb_spec 0 retries) as [Hpos|Hneg]; try lia; try done.
  change (after_delay ?ms (after_attempt ?u ?sg ?rp (set_cache c s)))
    with (set_cache c (after_delay ms (after_attempt u sg rp s))).
  apply IH. lia.
Qed.
End Fetch.

Lemma filter_excluded (P Q : Effect → bool) (l : list Effect) :
  (∀ e, Q e = true → P e = false) →
  forallb Q l = true → List.filter P l = [].
Proof.
  intros HPQ. induction l as [|e l IH]; simpl; [done|].
  intros [He Hl]%andb_true_iff. rewrite (HPQ e He). auto.
Qed.

Lemma request_effect_not_hit (e : Effect) :
  request_effect e = true → is_Notify "cache-hit" e = false.
Proof.
  destruct e as [ev p| | | | | |]; simpl; try done.
  destruct (String.eqb_spec ev "cache-hit") as [->|]; [|done]. done.
Qed.

Lemma request_effect_not_abort (e : Effect) :
  request_effect e = true → is_Abort e = false.
Proof. by destruct e. Qed.

Section CachedFetch.
Variable net : nat → string → option nat → NetReply.
Variable URL_href : string → list (string * string) → option string.

(** After a fetch that resolved with a truthy value, the cache holds
    that value under the key of the request. *)
Lemma fetchData_success_cached (endpoint : string) (params : JsObject)
    (s0 s1 : State) (d : JsValue) :
  fetchData net URL_href endpoint params true s0 = (Normal d, s1) →
  truthy d = true →
  ∃ entry, Map_get (cache s1) (generateCacheKey endpoint params) = Some entry
    ∧ data entry = d
    ∧ (cache_hit (generateCacheKey endpoint params) true s0 = false →
       timestamp entry = now s1).
Proof.
  intros Hrun Hd. set (key := generateCacheKey endpoint params) in *.
  destruct (cache_hit key true s0) eqn:Hhit.
  - apply cache_hit_entry in Hhit as (_ & entry & Hentry & Hfresh & Ht).
    rewrite (fetchData_hit net URL_href endpoint params s0 entry) in Hrun
      by done.
    injection Hrun as <- <-. exists entry. by repeat split.
  - rewrite fetchData_miss, fetchData_request_run in Hrun by done.
    fold key in Hrun.
    destruct (URL_href _ _) as [url|]; [|done].
    destruct (fetchWithRetry net url _ _ _) as [[d'|e] s2]; [|done].
    injection Hrun as <- <-.
    exists (mkEntry d' (now s2)). simpl.
    by rewrite Map_get_set.
Qed.

(** C5 (amended): when the cache holds, under the key of the request,
    an entry that has not expired and whose data is truthy,
    [fetchData] with [useCache] notifies [cache-hit], returns the
    cached data, issues no network call and leaves [requestCount]
    alone; hence, after a fetch that resolved with a truthy value, a
    second fetch of the same endpoint and parameters made before the
    entry expires returns that value from the cache. *)
Theorem fetchData_cache_hit (endpoint : string) (params : JsObject)
    (s : State) (entry : CacheEntry) :
  Map_get (cache s) (generateCacheKey endpoint params) = Some entry →
  now s - timestamp entry < cacheExpiry (config s) →
  truthy (data entry) = true →
  let s' := set_trace (trace s ++ notified s "cache-hit" None) s in
  fetchData net URL_href endpoint params true s = (Normal (data entry), s')
  ∧ requestCount s' = requestCount s
  ∧ attempts s' = attempts s
  ∧ List.filter is_Fetch (notified s "cache-hit" None) = []
  ∧ List.filter (is_Notify "cache-hit") (notified s "cache-hit" None)
    = [Notify "cache-hit" None]
  ∧ ∀ s0 d s1,
      fetchData net URL_href endpoint params true s0 = (Normal d, s1) →
      truthy d = true →
      ∃ stored,
        Map_get (cache s1) (generateCacheKey endpoint params) = Some stored
        ∧ data stored = d
        ∧ (cache_hit (generateCacheKey endpoint params) true s0 = false →
           timestamp stored = now s1)
        ∧ ∀ t, t - timestamp stored < cacheExpiry (config s1) →
            fetchData net URL_href endpoint params true (set_now t s1)
            = (Normal d,
               set_trace (trace s1 ++ notified s1 "cache-hit" None)
                 (set_now t s1)).
Proof.
  intros Hentry Hfresh Htruthy. cbn zeta.
  split; [by apply fetchData_hit|]. do 2 (split; [done|]).
  rewrite !filter_notified by done. do 2 (split; [done|]).
  intros s0 d s1 Hrun Hd.
  destruct (fetchData_success_cached endpoint params s0 s1 d Hrun Hd)
    as (stored & Hstored & Hdata & Hstamp).
  exists stored. do 3 (split; [done|]).
  intros t Ht. rewrite <- Hdata.
  apply (fetchData_hit net URL_href endpoint params (set_now t s1) stored);
    [done|done|by rewrite Hdata].
Qed.
End CachedFetch.

Lemma fetchData_cache_hit_witness :
  fetchData net_down plain_href "/posts" [] true
    (manager_with "/posts" (JArr [JNum 1]) 900)
  = (Normal (JArr [JNum 1]),
     set_trace [Notify "cache-hit" None]
       (manager_with "/posts" (JArr [JNum 1]) 900)).
Proof.
  destruct (fetchData_cache_hit net_down plain_href "/posts" []
              (manager_with "/posts" (JArr [JNum 1]) 900)
              (mkEntry (JArr [JNum 1]) 900))
    as [Hrun _]; [reflexivity|simpl; lia|reflexivity|].
  exact Hrun.
Defined.

(** A valid entry holding the number 0 is not served: the request goes
    to the network, which here answers with an empty list. *)
Lemma fetchData_valid_falsy_entry_refetched :
  let s := manager_with "/posts" (JNum 0) 900 in
  Map_get (cache s) (generateCacheKey "/posts" []) = Some (mkEntry (JNum 0) 900)
  ∧ now s - 900 < cacheExpiry (config s)
  ∧ ∃ s', fetchData (net_const (JArr [])) plain_href "/posts" [] true s
          = (Normal (JArr []), s')
      ∧ requestCount s' = requestCount s + 1
      ∧ attempts s' = S (attempts s)
      ∧ List.filter (is_Notify "cache-hit") (trace s') = [].
Proof.
  cbn zeta. split; [reflexivity|]. split; [simpl; lia|].
  eexists. split; [vm_compute; reflexivity|]. by repeat split.
Qed.

(** ** Retries on sample networks *)

Lemma fetchWithRetry_exhausts_budget_witness :
  ∃ e s',
    fetchWithRetry net_down "https://jsonplaceholder.typicode.com/posts" None 2
      fresh_manager = (Throw e, s')
    ∧ Z.of_nat (attempts s') = 3
    ∧ requestCount s' = 3.
Proof.
  destruct (fetchWithRetry_exhausts_budget net_down
              "https://jsonplaceholder.typicode.com/posts" None 2 fresh_manager)
    as (e & s' & delta & Hrun & _ & Hatt & Hcount & _).
  - lia.
  - intros i _. exists offline. split; [reflexivity|discriminate].
  - exists e, s'. split; [exact Hrun|]. split; [exact Hatt|exact Hcount].
Defined.

(** With [maxRetries = 2] three attempts, with [maxRetries = 0] one. *)
Example fetchWithRetry_budget_2_and_0 :
  let s2 := (fetchWithRetry net_down "/posts" None 2 fresh_manager).2 in
  let s0 := (fetchWithRetry net_down "/posts" None 0 fresh_manager).2 in
  (attempts s2 = 3%nat ∧ requestCount s2 = 3
   ∧ List.filter is_Fetch (trace s2) = List.repeat (Fetch "/posts" None) 3)
  ∧ (attempts s0 = 1%nat ∧ requestCount s0 = 1
     ∧ List.filter is_Fetch (trace s0) = [Fetch "/posts" None]).
Proof. vm_compute. by repeat split. Qed.

Lemma fetchWithRetry_abort_propagates_witness :
  ∃ s',
    fetchWithRetry net_aborting "/posts" (Some 0%nat) 3 fresh_manager
    = (Throw superseded, s')
    ∧ attempts s' = 1%nat
    ∧ now s' = now fresh_manager.
Proof.
  destruct (fetchWithRetry_abort_propagates net_aborting "/posts" (Some 0%nat)
              3 fresh_manager superseded)
    as (s' & delta & Hrun & Hatt & _ & Hnow & _);
    [reflexivity|reflexivity|].
  exists s'. split; [exact Hrun|]. split; [exact Hatt|].
  rewrite Hnow. reflexivity.
Defined.

(** ** Derived endpoints *)

(** The documented parameter names [start] and [limit] are not the
    ones sent: the cache key and the URL carry [_start] and [_limit]. *)
Lemma fetchPosts_sends_underscore_names :
  let run := fetchPosts (net_const (JArr [])) plain_href 1 10 fresh_manager in
  let documented :=
    fetchPosts_documented (net_const (JArr [])) plain_href 1 10 fresh_manager in
  Map_keys (cache run.2) = ["/posts?_limit=10&_start=0"]
  ∧ Map_keys (cache documented.2) = ["/posts?limit=10&start=0"]
  ∧ List.filter is_Fetch (trace run.2)
    = [Fetch "https://jsonplaceholder.typicode.com/posts?_start=0&_limit=10"
         (Some 0%nat)]
  ∧ List.filter is_Fetch (trace documented.2)
    = [Fetch "https://jsonplaceholder.typicode.com/posts?start=0&limit=10"
         (Some 0%nat)]
  ∧ run ≠ documented.
Proof.
  cbn zeta. repeat split; try (vm_compute; reflexivity).
  intros H. apply (f_equal (fun r => Map_keys (cache r.2))) in H.
  vm_compute in H. discriminate.
Qed.

(** C7 (amended): [fetchPosts(page, limit)] is [fetchData] on
    [/posts] with the parameters [_start = (page - 1) * limit] and
    [_limit = limit], and returns its result; the request is cached
    under [/posts?_limit=...&_start=...]. *)
Theorem fetchPosts_delegates
    (net : nat → string → option nat → NetReply)
    (URL_href : string → list (string * string) → option string)
    (page limit : Z) :
  fetchPosts net URL_href page limit
  = fetchData net URL_href "/posts"
      [("_start", JNum ((page - 1) * limit)); ("_limit", JNum limit)] true
  ∧ query_pairs [("_start", JNum ((page - 1) * limit)); ("_limit", JNum limit)]
    = [("_start", Z_to_string ((page - 1) * limit));
       ("_limit", Z_to_string limit)]
  ∧ generateCacheKey "/posts"
      [("_start", JNum ((page - 1) * limit)); ("_limit", JNum limit)]
    = "/posts?_limit=" +:+ Z_to_string limit
      +:+ "&_start=" +:+ Z_to_string ((page - 1) * limit).
Proof.
  split; [reflexivity|]. split; [reflexivity|].
  rewrite generateCacheKey_as_documented. reflexivity.
Qed.

(** ** Superseding the previous request *)

Lemma after_lookup_set_cache (key : string) (useCache : bool) (s : State) :
  ∃ c, after_lookup key useCache s = set_cache c s.
Proof.
  unfold after_lookup. destruct useCache; [|by exists (cache s); destruct s].
  destruct (Map_get (cache s) key) as [entry|];
    [destruct (_ <? _)|]; eauto; by exists (cache s); destruct s.
Qed.

Section Supersede.
Variable net : nat → string → option nat → NetReply.
Variable URL_href : string → list (string * string) → option string.

(** Every call of [fetchWithRetry] begins with the [request-started]
    notification and a network call. *)
Lemma fetchWithRetry_first_effects (url : string) (signal : option nat)
    (retries : Z) (s : State) :
  ∃ rest,
    trace (fetchWithRetry net url signal retries s).2
    = trace s ++ notified s "request-started" None
      ++ [Fetch url signal] ++ rest
    ∧ forallb request_effect rest = true.
Proof.
  rewrite fetchWithRetry_step; cbn zeta.
  set (reply := net (attempts s) url signal).
  destruct (attempt_result reply) as [d|error] eqn:Hres.
  { eexists. unfold after_attempt. rewrite Hres. simpl.
    split; [reflexivity|]. by apply notified_request_effect. }
  destruct (String.eqb (name error) "AbortError").
  { exists []. unfold after_attempt. rewrite Hres. simpl. done. }
  destruct (0 <? retries).
  - destruct (fetchWithRetry_frame net url signal (retries - 1)
                (after_delay (retryDelay (config s))
                   (after_attempt url signal reply s)))
      as (_ & d2 & -> & Hd2).
    exists (Delay (retryDelay (config s)) :: d2).
    unfold after_attempt. rewrite Hres.
    split; [trace_eq|done].
  - exists (notified s "request-error" (Some error)).
    unfold after_attempt. rewrite Hres.
    split; [trace_eq|]. by apply notified_request_effect.
Qed.

(** C10: a [fetchData] call answered from the cache aborts nothing
    and leaves [abortController] as it was; a call that is not
    answered from the cache first aborts the controller in place, if
    any, then creates the new controller, and then, the URL being
    well formed, starts the request on the new controller's signal;
    nothing else in the call aborts. *)
Theorem fetchData_aborts_only_on_miss (endpoint : string)
    (params : JsObject) (useCache : bool) (s : State) :
  let s' := (fetchData net URL_href endpoint params useCache s).2 in
  if cache_hit (generateCacheKey endpoint params) useCache s then
    abortController s' = abortController s
    ∧ aborted s' = aborted s
    ∧ controllers s' = controllers s
    ∧ trace s' = trace s ++ notified s "cache-hit" None
    ∧ List.filter is_Abort (notified s "cache-hit" None) = []
  else
    abortController s' = Some (controllers s)
    ∧ controllers s' = S (controllers s)
    ∧ aborted s' = match abortController s with
                   | Some c => c :: aborted s
                   | None => aborted s
                   end
    ∧ ∃ rest,
        trace s'
        = trace s
          ++ match abortController s with
             | Some c => [Abort c]
             | None => []
             end
          ++ [NewAbortController (controllers s)] ++ rest
        ∧ List.filter is_Abort rest = []
        ∧ match URL_href (baseUrl s +:+ endpoint) (query_pairs params) with
          | Some url =>
              ∃ rest',
                rest = notified s "request-started" None
                       ++ [Fetch url (Some (controllers s))] ++ rest'
          | None => rest = []
          end.
Proof.
  cbn zeta. set (key := generateCacheKey endpoint params).
  destruct (cache_hit key useCache s) eqn:Hhit.
  { apply cache_hit_entry in Hhit as (-> & entry & Hentry & Hfresh & Ht).
    rewrite (fetchData_hit net URL_href endpoint params s entry) by done.
    rewrite filter_notified by done. by repeat split. }
  rewrite fetchData_miss, fetchData_request_run by done. fold key.
  destruct (after_lookup_set_cache key useCache s) as [c ->].
  change (baseUrl (set_cache c s)) with (baseUrl s).
  change (controllers (set_cache c s)) with (controllers s).
  change (config (set_cache c s)) with (config s).
  change (after_supersede (set_cache c s))
    with (set_cache c (after_supersede s)).
  destruct (URL_href _ _) as [url|]; [|by repeat split; exists []].
  rewrite fetchWithRetry_set_cache.
  destruct (fetchWithRetry_frame net url (Some (controllers s))
              (maxRetries (config s)) (after_supersede s))
    as ((_&_&Hctl&_&_&Hls&Hn&Hab) & _).
  destruct (fetchWithRetry_first_effects url (Some (controllers s))
              (maxRetries (config s)) (after_supersede s))
    as (rest & Htrace & Hrest).
  destruct (fetchWithRetry net url _ _ _) as [[d|e] s2]; simpl in *.
  - assert (∃ tail,
              trace (if useCache
                     then after_setCache key d (set_cache c s2)
                     else set_cache c s2) = trace s2 ++ tail
              ∧ List.filter is_Abort tail = []) as (tail & Htail & Hnone).
    { destruct useCache; [|by exists []; rewrite app_nil_r].
      eexists. split; [reflexivity|]. by rewrite filter_notified. }
    split; [by destruct useCache|]. split; [by destruct useCache|].
    split; [by destruct useCache|].
    exists ((notified s "request-started" None
             ++ [Fetch url (Some (controllers s))] ++ rest) ++ tail).
    rewrite Htail, Htrace. split; [trace_eq|].
    split; [|by exists (rest ++ tail); rewrite <- !app_assoc].
    rewrite !List.filter_app, Hnone, filter_notified by done. simpl.
    by rewrite (filter_excluded _ _ _ request_effect_not_abort Hrest).
  - assert (List.filter is_Abort
              (notified s "request-started" None
               ++ [Fetch url (Some (controllers s))] ++ rest) = [])
      as Hnone.
    { rewrite !List.filter_app, filter_notified by done. simpl.
      by rewrite (filter_excluded _ _ _ request_effect_not_abort Hrest). }
    destruct (String.eqb (name e) "AbortError"); simpl;
      do 3 (split; [done|]); rewrite Htrace.
    + exists (notified s "request-started" None
              ++ [Fetch url (Some (controllers s))] ++ rest).
      split; [trace_eq|]. split; [done|by exists rest].
    + exists ((notified s "request-started" None
               ++ [Fetch url (Some (controllers s))] ++ rest)
              ++ [ConsoleError e]).
      split; [trace_eq|].
      split; [by rewrite List.filter_app, Hnone|].
      exists (rest ++ [ConsoleError e]). by rewrite <- !app_assoc.
Qed.
End Supersede.

(** ** Falsy cached data *)

Lemma set_cache_id (s : State) : set_cache (cache s) s = s.
Proof. by destruct s. Qed.

Section FalsyEntry.
Variable net : nat → string → option nat → NetReply.
Variable URL_href : string → list (string * string) → option string.

(** The request part of [fetchData], run on the same manager with
    another cache content. *)
Lemma fetchData_request_cache (key endpoint : string) (params : JsObject)
    (useCache : bool) (c : JsMap CacheEntry) (s : State) :
  fetchData_request net URL_href key endpoint params useCache (set_cache c s)
  = match URL_href (baseUrl s +:+ endpoint) (query_pairs params) with
    | None =>
        (Throw (mkError "TypeError" "Invalid URL"),
         set_cache c (after_supersede s))
    | Some url =>
        match fetchWithRetry net url (Some (controllers s))
                (maxRetries (config s)) (after_supersede s) with
        | (Normal d, s2) =>
            (Normal d,
             if useCache then after_setCache key d (set_cache c s2)
             else set_cache c s2)
        | (Throw e, s2) =>
            (Throw e,
             if String.eqb (name e) "AbortError" then set_cache c s2
             else set_trace (trace s2 ++ [ConsoleError e]) (set_cache c s2))
        end
    end.
Proof.
  rewrite fetchData_request_run.
  change (baseUrl (set_cache c s)) with (baseUrl s).
  change (controllers (set_cache c s)) with (controllers s).
  change (config (set_cache c s)) with (config s).
  change (after_supersede (set_cache c s))
    with (set_cache c (after_supersede s)).
  destruct (URL_href _ _) as [url|]; [|done].
  rewrite fetchWithRetry_set_cache.
  by destruct (fetchWithRetry net url _ _ _) as [[d|e] s2].
Qed.

(** The request part of [fetchData] never notifies [cache-hit]. *)
Lemma fetchData_request_no_hit (key endpoint : string) (params : JsObject)
    (useCache : bool) (s : State) :
  List.filter (is_Notify "cache-hit")
    (trace (fetchData_request net URL_href key endpoint params useCache s).2)
  = List.filter (is_Notify "cache-hit") (trace s).
Proof.
  rewrite fetchData_request_run.
  assert (List.filter (is_Notify "cache-hit") (trace (after_supersede s))
          = List.filter (is_Notify "cache-hit") (trace s)) as Hsup.
  { unfold after_supersede. simpl. rewrite !List.filter_app.
    destruct (abortController s); simpl; by rewrite app_nil_r. }
  destruct (URL_href _ _) as [url|]; [|done].
  destruct (fetchWithRetry_frame net url (Some (controllers s))
              (maxRetries (config s)) (after_supersede s))
    as (_ & delta & Htrace & Hdelta).
  apply (filter_excluded _ _ _ request_effect_not_hit) in Hdelta.
  destruct (fetchWithRetry net url _ _ _) as [[d|e] s2]; simpl in *.
  - destruct useCache; simpl;
      rewrite ?List.filter_app, ?filter_notified by done;
      rewrite Htrace, List.filter_app, Hdelta, Hsup; simpl;
      by rewrite ?app_nil_r.
  - destruct (String.eqb (name e) "AbortError"); simpl;
      rewrite ?List.filter_app, Htrace, List.filter_app, Hdelta, Hsup;
      simpl; by rewrite ?app_nil_r.
Qed.

(** C9: when the cache holds, under the key of the request, an entry
    that has not expired but whose data is falsy, [getCache] returns
    that data, and [fetchData] with [useCache] notifies no [cache-hit]
    and runs the request exactly as it does when the entry is absent:
    same result, same effects, same state outside the cache, the same
    cache under every other key and, when the request succeeds, the
    same cache under this key too. *)
Theorem fetchData_falsy_entry_is_a_miss (endpoint : string)
    (params : JsObject) (s : State) (entry : CacheEntry) :
  let key := generateCacheKey endpoint params in
  Map_get (cache s) key = Some entry →
  now s - timestamp entry < cacheExpiry (config s) →
  truthy (data entry) = false →
  let s0 := set_cache (Map_delete (cache s) key) s in
  let run := fetchData net URL_href endpoint params true s in
  let run0 := fetchData net URL_href endpoint params true s0 in
  getCache key s = (Normal (data entry), s)
  ∧ run = fetchData_request net URL_href key endpoint params true s
  ∧ run0 = fetchData_request net URL_href key endpoint params true s0
  ∧ List.filter (is_Notify "cache-hit") (trace run.2)
    = List.filter (is_Notify "cache-hit") (trace s)
  ∧ run.1 = run0.1
  ∧ set_cache [] run.2 = set_cache [] run0.2
  ∧ (∀ k, k ≠ key → Map_get (cache run.2) k = Map_get (cache run0.2) k)
  ∧ (∀ d, run.1 = Normal d →
          Map_get (cache run.2) key = Map_get (cache run0.2) key).
Proof.
  intros key Hentry Hfresh Hfalsy s0 run run0.
  assert (run = fetchData_request net URL_href key endpoint params true s)
    as Hrun.
  { unfold run. rewrite fetchData_miss.
    - fold key. unfold after_lookup. rewrite Hentry.
      by replace (_ <? _) with true by (symmetry; apply Z.ltb_lt; lia).
    - fold key. unfold cache_hit. rewrite Hentry, Hfalsy.
      by rewrite andb_false_r. }
  assert (run0 = fetchData_request net URL_href key endpoint params true s0)
    as Hrun0.
  { unfold run0. rewrite fetchData_miss; fold key.
    - unfold after_lookup, s0. simpl. by rewrite Map_get_delete.
    - unfold cache_hit, s0. simpl. by rewrite Map_get_delete. }
  split.
  { pose proof (getCache_lookup key s) as H. rewrite Hentry in H.
    by replace (_ <? _) with true in H by (symmetry; apply Z.ltb_lt; lia). }
  split; [exact Hrun|]. split; [exact Hrun0|].
  split; [rewrite Hrun; apply fetchData_request_no_hit|].
  rewrite Hrun, Hrun0. unfold s0.
  assert (fetchData_request net URL_href key endpoint params true s
          = fetchData_request net URL_href key endpoint params true
              (set_cache (cache s) s)) as -> by (by rewrite set_cache_id).
  rewrite !fetchData_request_cache.
  destruct (URL_href _ _) as [url|].
  - destruct (fetchWithRetry net url _ _ _) as [[d|e] s2]; simpl.
    + repeat split; try done.
      * intros k Hk. by rewrite !Map_get_set_ne, Map_get_delete_ne by done.
      * intros _ _. by rewrite !Map_get_set.
    + destruct (String.eqb (name e) "AbortError"); simpl;
        repeat split; try done;
        intros k Hk; by rewrite Map_get_delete_ne.
  - simpl. repeat split; try done.
    intros k Hk. by rewrite Map_get_delete_ne.
Qed.
End FalsyEntry.

Lemma fetchData_falsy_entry_is_a_miss_witness :
  let s := manager_with "/posts" (JNum 0) 900 in
  getCache "/posts" s = (Normal (JNum 0), s)
  ∧ fetchData (net_const (JArr [])) plain_href "/posts" [] true s
    = fetchData_request (net_const (JArr [])) plain_href "/posts" "/posts" []
        true s.
Proof.
  destruct (fetchData_falsy_entry_is_a_miss (net_const (JArr [])) plain_href
              "/posts" [] (manager_with "/posts" (JNum 0) 900)
              (mkEntry (JNum 0) 900))
    as (Hget & Hrun & _); [reflexivity|simpl; lia|reflexivity|].
  split; [exact Hget|exact Hrun].
Defined.

(** * Further properties of the code *)

(** ** The cache as a map *)

Lemma Map_keys_set {V} (m : JsMap V) (k : string) (v : V) :
  Map_keys (Map_set m k v)
  = match Map_get m k with
    | Some _ => Map_keys m
    | None => Map_keys m ++ [k]
    end.
Proof.
  induction m as [|[k' v'] m IH]; simpl; [done|].
  destruct (String.eqb_spec k' k) as [->|]; simpl; [done|].
  rewrite IH. by destruct (Map_get m k).
Qed.




Lemma setCache_state (key : string) (d : JsValue) (s : State) :
  setCache key d s = (Normal tt, after_setCache key d s).
Proof. unfold setCache, bind, modify. by rewrite notifyListeners_run. Qed.

(** X1: an entry written by [setCache] is read back by [getCache] as
    long as fewer than [cacheExpiry] milliseconds have passed; at
    [cacheExpiry] milliseconds and later the read gives [null] and
    deletes the entry. *)
Theorem setCache_then_getCache (key : string) (d : JsValue) (s : State)
    (dt : Z) :
  let s1 := (setCache key d s).2 in
  let later := set_now (now s + dt) s1 in
  getCache key later
  = if dt <? cacheExpiry (config s) then (Normal d, later)
    else (Normal JNull, set_cache (Map_delete (cache s1) key) later).
Proof.
  cbn zeta. rewrite setCache_state, getCache_lookup. simpl.
  rewrite Map_get_set. simpl.
  replace (now s + dt - now s) with dt by lia.
  by destruct (dt <? cacheExpiry (config s)).
Qed.

(** X2: [setCache] on a key already present keeps the entry's place and
    the size of the cache; on a new key it appends the key and the size
    grows by one; the entries under the other keys are as before. *)
Theorem setCache_size (key : string) (d : JsValue) (s : State) :
  let s1 := (setCache key d s).2 in
  Map_keys (cache s1)
  = match Map_get (cache s) key with
    | Some _ => Map_keys (cache s)
    | None => Map_keys (cache s) ++ [key]
    end
  ∧ Map_size (cache s1)
    = Map_size (cache s)
      + match Map_get (cache s) key with Some _ => 0 | None => 1 end
  ∧ ∀ k, k ≠ key → Map_get (cache s1) k = Map_get (cache s) k.
Proof.
  cbn zeta. rewrite setCache_state. simpl.
  pose proof (Map_keys_set (cache s) key (mkEntry d (now s))) as Hkeys.
  split; [by destruct (Map_get (cache s) key)|]. split.
  - apply (f_equal (fun l => Z.of_nat (length l))) in Hkeys.
    unfold Map_size, Map_keys in *. rewrite length_map in Hkeys.
    rewrite Hkeys. destruct (Map_get (cache s) key).
    + by rewrite length_map, Z.add_0_r.
    + rewrite length_app, length_map. simpl. lia.
  - intros k Hk. by apply Map_get_set_ne.
Qed.

(** X3: after [clearCache] the statistics show an empty cache, every
    [getCache] misses, no [fetchData] is answered from the cache, and
    the request counter is as before; [cache-cleared] is notified. *)
Theorem clearCache_empties (s : State) :
  let s1 := (clearCache s).2 in
  getStats s1
  = (Normal [("cacheSize", JNum 0); ("requestCount", JNum (requestCount s));
             ("cachedItems", JArr [])], s1)
  ∧ (∀ key, getCache key s1 = (Normal JNull, s1))
  ∧ (∀ key useCache, cache_hit key useCache s1 = false)
  ∧ trace s1 = trace s ++ notified s "cache-cleared" None.
Proof.
  cbn zeta. unfold clearCache, bind, modify. rewrite notifyListeners_run.
  simpl. split; [done|]. split; [done|]. split; [|done].
  intros key useCache. unfold cache_hit. simpl. apply andb_false_r.
Qed.



(** X5: [getCache] changes nothing but, possibly, the entry under the
    key it reads: the entries under the other keys, stale or not, and
    the trace are untouched (an eviction is not notified), and reading
    the same key again gives the same result and changes nothing more. *)
Theorem getCache_frame (key : string) (s : State) :
  let s1 := (getCache key s).2 in
  (∀ k, k ≠ key → Map_get (cache s1) k = Map_get (cache s) k)
  ∧ set_cache [] s1 = set_cache [] s
  ∧ getCache key s1 = ((getCache key s).1, s1).
Proof.
  cbn zeta. rewrite !getCache_lookup.
  destruct (Map_get (cache s) key) as [entry|] eqn:Hentry.
  - destruct (now s - timestamp entry <? cacheExpiry (config s)) eqn:Hfresh;
      simpl.
    + by rewrite Hentry, Hfresh.
    + rewrite Map_get_delete. split; [|done].
      intros k Hk. by apply Map_get_delete_ne.
  - simpl. by rewrite Hentry.
Qed.

(** ** Listeners *)






(** ** More on retries *)

Lemma failed_rounds_filter (P : Effect → bool) (s : State) (url : string)
    (signal : option nat) (ms : Z) (k : nat) :
  (∀ cb, P (Invoke cb None) = false) →
  List.filter P
    (failed_rounds (notified s "request-started" None) url signal ms k)
  = List.concat
      (List.repeat
         (List.filter P
            [Notify "request-started" None; Fetch url signal; Delay ms]) k).
Proof.
  intros HP. induction k as [|k IH]; [done|].
  cbn [failed_rounds List.repeat List.concat].
  rewrite !List.filter_app, filter_notified, IH by done.
  simpl.
  by destruct (P (Notify "request-started" None)), (P (Fetch url signal)),
    (P (Delay ms)).
Qed.

Lemma concat_repeat_nil {A} (k : nat) :
  List.concat (List.repeat (@nil A) k) = [].
Proof. induction k; simpl; auto. Qed.

Lemma concat_repeat_one {A} (x : A) (k : nat) :
  List.concat (List.repeat [x] k) = List.repeat x k.
Proof. induction k as [|k IH]; simpl; [done|]. by rewrite IH. Qed.

Section RetryRounds.
Variable net : nat → string → option nat → NetReply.
Variables (url : string) (signal : option nat).

(** [k] failed attempts within the budget leave the call where a call
    with [k] fewer retries would start. *)
Lemma retry_rounds (k : nat) :
  ∀ (r : Z) (s : State),
    Z.of_nat k ≤ r →
    (∀ i, (attempts s ≤ i < attempts s + k)%nat →
          ∃ e, attempt_result (net i url signal) = Throw e
               ∧ name e ≠ "AbortError") →
    ∃ sk,
      fetchWithRetry net url signal r s
      = fetchWithRetry net url signal (r - Z.of_nat k) sk
      ∧ attempts sk = (attempts s + k)%nat
      ∧ requestCount sk = requestCount s + Z.of_nat k
      ∧ listeners sk = listeners s
      ∧ config sk = config s
      ∧ trace sk
        = trace s
          ++ failed_rounds (notified s "request-started" None) url signal
               (retryDelay (config s)) k.
Proof.
  induction k as [|k IH]; intros r s Hr Hfail.
  { exists s. rewrite Z.sub_0_r, Nat.add_0_r, Z.add_0_r, app_nil_r. done. }
  rewrite fetchWithRetry_step; cbn zeta.
  destruct (Hfail (attempts s)) as (e0 & He0 & Hname); [lia|].
  rewrite He0. apply String.eqb_neq in Hname. rewrite Hname.
  replace (0 <? r) with true by (symmetry; apply Z.ltb_lt; lia).
  set (s2 := after_delay _ _).
  destruct (IH (r - 1) s2) as (sk & Hrun & Hatt & Hcount & Hls & Hcfg & Htrace).
  - lia.
  - intros i Hi. apply Hfail. simpl in Hi. lia.
  - exists sk. replace (r - Z.of_nat (S k)) with (r - 1 - Z.of_nat k) by lia.
    split; [done|]. split; [simpl in Hatt; lia|].
    split; [simpl in Hcount; lia|]. split; [done|]. split; [done|].
    rewrite Htrace. unfold s2, after_delay, after_attempt. rewrite He0.
    cbn [failed_rounds]. trace_eq.
Qed.

(** X8: when the first [k] attempts fail with errors other than
    [AbortError], [k] being within the retry budget, and the next one
    succeeds, [fetchWithRetry] resolves with the parsed data after
    [k + 1] network calls and [k] waits, notifies [request-success] once
    and [request-error] never. *)
Theorem fetchWithRetry_recovers (k : nat) (r : Z) (s : State) (d : JsValue) :
  Z.of_nat k ≤ r →
  (∀ i, (attempts s ≤ i < attempts s + k)%nat →
        ∃ e, attempt_result (net i url signal) = Throw e
             ∧ name e ≠ "AbortError") →
  attempt_result (net (attempts s + k)%nat url signal) = Normal d →
  ∃ s' delta,
    fetchWithRetry net url signal r s = (Normal d, s')
    ∧ attempts s' = (attempts s + S k)%nat
    ∧ requestCount s' = requestCount s + Z.of_nat (S k)
    ∧ trace s' = trace s ++ delta
    ∧ List.filter is_Fetch delta = List.repeat (Fetch url signal) (S k)
    ∧ List.filter is_Delay delta
      = List.repeat (Delay (retryDelay (config s))) k
    ∧ List.filter (is_Notify "request-success") delta
      = [Notify "request-success" None]
    ∧ List.filter (is_Notify "request-error") delta = [].
Proof.
  intros Hr Hfail Hok.
  destruct (retry_rounds k r s Hr Hfail)
    as (sk & -> & Hatt & Hcount & Hls & Hcfg & Htrace).
  rewrite fetchWithRetry_step; cbn zeta. rewrite Hatt, Hok.
  eexists _, (failed_rounds (notified s "request-started" None) url signal
                (retryDelay (config s)) k
              ++ notified s "request-started" None ++ [Fetch url signal]
              ++ notified s "request-success" None).
  split; [reflexivity|]. split; [simpl; lia|]. split; [simpl; lia|].
  split.
  { unfold after_attempt. rewrite Hatt, Hok. simpl. rewrite Htrace.
    unfold notified. rewrite Hls. by rewrite <- !app_assoc. }
  rewrite !List.filter_app, !failed_rounds_filter, !filter_notified by done.
  simpl. rewrite !concat_repeat_one, !concat_repeat_nil, ?app_nil_r.
  repeat split; try done.
  change [Fetch url signal] with (List.repeat (Fetch url signal) 1).
  by rewrite <- repeat_app, Nat.add_1_r.
Qed.

(** X9: when an attempt fails with [AbortError] after [k] attempts
    that failed otherwise, [fetchWithRetry] rejects with the
    [AbortError] at once: [k + 1] network calls in all, no wait after
    the last, and neither [request-error] nor [request-success]. *)
Theorem fetchWithRetry_abort_after_failures (k : nat) (r : Z) (s : State)
    (e : JsError) :
  Z.of_nat k ≤ r →
  (∀ i, (attempts s ≤ i < attempts s + k)%nat →
        ∃ e0, attempt_result (net i url signal) = Throw e0
              ∧ name e0 ≠ "AbortError") →
  attempt_result (net (attempts s + k)%nat url signal) = Throw e →
  name e = "AbortError" →
  ∃ s' delta,
    fetchWithRetry net url signal r s = (Throw e, s')
    ∧ attempts s' = (attempts s + S k)%nat
    ∧ requestCount s' = requestCount s + Z.of_nat (S k)
    ∧ trace s' = trace s ++ delta
    ∧ List.filter is_Fetch delta = List.repeat (Fetch url signal) (S k)
    ∧ List.filter is_Delay delta
      = List.repeat (Delay (retryDelay (config s))) k
    ∧ List.filter (is_Notify "request-success") delta = []
    ∧ List.filter (is_Notify "request-error") delta = [].
Proof.
  intros Hr Hfail He Hname.
  destruct (retry_rounds k r s Hr Hfail)
    as (sk & -> & Hatt & Hcount & Hls & Hcfg & Htrace).
  rewrite fetchWithRetry_step; cbn zeta. rewrite Hatt, He, Hname.
  cbn [String.eqb Ascii.eqb Bool.eqb].
  eexists _, (failed_rounds (notified s "request-started" None) url signal
                (retryDelay (config s)) k
              ++ notified s "request-started" None ++ [Fetch url signal]).
  split; [reflexivity|]. split; [simpl; lia|]. split; [simpl; lia|].
  split.
  { unfold after_attempt. rewrite Hatt, He. simpl. rewrite Htrace.
    unfold notified. rewrite Hls. by rewrite <- !app_assoc. }
  rewrite !List.filter_app, !failed_rounds_filter, !filter_notified by done.
  simpl. rewrite !concat_repeat_one, !concat_repeat_nil, ?app_nil_r.
  repeat split; try done.
  change [Fetch url signal] with (List.repeat (Fetch url signal) 1).
  by rewrite <- repeat_app, Nat.add_1_r.
Qed.

Lemma after_attempt_fetches (reply : NetReply) (s : State) :
  List.filter is_Fetch (trace (after_attempt url signal reply s))
  = List.filter is_Fetch (trace s) ++ [Fetch url signal].
Proof.
  unfold after_attempt. cbn [trace].
  rewrite !List.filter_app, filter_notified by done.
  destruct (attempt_result reply); rewrite ?filter_notified by done;
    simpl; by rewrite ?app_nil_r.
Qed.

Lemma after_attempt_delays (reply : NetReply) (s : State) :
  List.filter is_Delay (trace (after_attempt url signal reply s))
  = List.filter is_Delay (trace s).
Proof.
  unfold after_attempt. cbn [trace].
  rewrite !List.filter_app, filter_notified by done.
  destruct (attempt_result reply); rewrite ?filter_notified by done;
    simpl; by rewrite ?app_nil_r.
Qed.

(** The attempts of one call: at least one, at most one more than the
    budget, each counted in [requestCount] and each a network call. *)
Lemma fetchWithRetry_attempts (r : Z) (s : State) :
  ∃ n,
    (1 ≤ n)%nat ∧ Z.of_nat n ≤ Z.max r 0 + 1
    ∧ attempts (fetchWithRetry net url signal r s).2 = (attempts s + n)%nat
    ∧ requestCount (fetchWithRetry net url signal r s).2
      = requestCount s + Z.of_nat n
    ∧ List.filter is_Fetch (trace (fetchWithRetry net url signal r s).2)
      = List.filter is_Fetch (trace s) ++ List.repeat (Fetch url signal) n.
Proof.
  remember (Z.to_nat r) as m eqn:Hm.
  assert (∀ s0 reply0, ∃ n,
            (1 ≤ n)%nat ∧ Z.of_nat n ≤ Z.max r 0 + 1
            ∧ attempts (after_attempt url signal reply0 s0)
              = (attempts s0 + n)%nat
            ∧ requestCount (after_attempt url signal reply0 s0)
              = requestCount s0 + Z.of_nat n
            ∧ List.filter is_Fetch (trace (after_attempt url signal reply0 s0))
              = List.filter is_Fetch (trace s0)
                ++ List.repeat (Fetch url signal) n) as Hsingle.
  { intros s0 reply0. exists 1%nat. split; [lia|]. split; [lia|].
    split; [simpl; lia|]. split; [done|]. apply after_attempt_fetches. }
  revert r s Hm Hsingle.
  induction m as [|m IH]; intros r s Hm Hsingle;
    rewrite fetchWithRetry_step; cbn zeta;
    set (reply := net (attempts s) url signal);
    (destruct (attempt_result reply) as [d|error]; [by apply Hsingle|]);
    (destruct (String.eqb (name error) "AbortError"); [by apply Hsingle|]);
    destruct (Z.ltb_spec 0 r) as [Hpos|Hneg]; try lia.
  - destruct (Hsingle s reply) as (n & ? & ? & ? & ? & Hf).
    exists n. do 4 (split; [done|]). cbn [snd trace set_trace].
    rewrite List.filter_app, filter_notified by done. simpl.
    by rewrite app_nil_r.
  - destruct (IH (r - 1) (after_delay (retryDelay (config s))
                           (after_attempt url signal reply s)))
      as (n & Hn1 & Hn2 & Hatt & Hcount & Hfetch); [lia| |].
    { intros s0 reply0. exists 1%nat. split; [lia|]. split; [lia|].
      split; [simpl; lia|]. split; [done|]. apply after_attempt_fetches. }
    exists (S n). rewrite Hatt, Hcount, Hfetch.
    split; [lia|]. split; [lia|]. split; [simpl; lia|]. split; [simpl; lia|].
    cbn [after_delay trace set_trace set_now].
    rewrite List.filter_app. simpl List.filter at 2.
    rewrite app_nil_r, after_attempt_fetches.
    by rewrite <- app_assoc.
Qed.

(** X10: whatever the network does, one call of [fetchWithRetry]
    makes at least one and at most [max(retries, 0) + 1] network calls,
    raises [requestCount] by exactly their number, and with a budget of
    zero or less makes exactly one and never waits. *)
Theorem fetchWithRetry_attempt_bounds (r : Z) (s : State) :
  let s' := (fetchWithRetry net url signal r s).2 in
  ∃ n,
    (1 ≤ n)%nat ∧ Z.of_nat n ≤ Z.max r 0 + 1
    ∧ attempts s' = (attempts s + n)%nat
    ∧ requestCount s' = requestCount s + Z.of_nat n
    ∧ List.filter is_Fetch (trace s')
      = List.filter is_Fetch (trace s) ++ List.repeat (Fetch url signal) n
    ∧ ((r <=? 0) = true →
       n = 1%nat
       ∧ List.filter is_Delay (trace s') = List.filter is_Delay (trace s)).
Proof.
  cbn zeta.
  destruct (fetchWithRetry_attempts r s) as (n & Hn1 & Hn2 & Hatt & Hc & Hf).
  exists n. do 5 (split; [done|]).
  intros Hr%Z.leb_le. split; [lia|].
  rewrite fetchWithRetry_step; cbn zeta.
  replace (0 <? r) with false by (symmetry; apply Z.ltb_ge; lia).
  set (reply := net (attempts s) url signal).
  pose proof (after_attempt_delays reply s) as Hnone.
  destruct (attempt_result reply) as [d|error]; [done|].
  destruct (String.eqb (name error) "AbortError"); [done|].
  cbn [snd trace set_trace].
  rewrite List.filter_app, filter_notified, Hnone by done. simpl.
  by rewrite app_nil_r.
Qed.
End RetryRounds.

Lemma fetchWithRetry_recovers_witness :
  ∃ s',
    fetchWithRetry (net_flaky 2 (JArr [JNum 7])) "/posts" None 3 fresh_manager
    = (Normal (JArr [JNum 7]), s')
    ∧ attempts s' = 3%nat.
Proof.
  destruct (fetchWithRetry_recovers (net_flaky 2 (JArr [JNum 7])) "/posts" None
              2 3 fresh_manager (JArr [JNum 7]))
    as (s' & delta & Hrun & Hatt & _).
  - lia.
  - intros i Hi. exists offline. simpl in Hi. unfold net_flaky.
    replace (i <? 2)%nat with true by (symmetry; apply Nat.ltb_lt; lia).
    split; [reflexivity|discriminate].
  - reflexivity.
  - exists s'. split; [exact Hrun|exact Hatt].
Defined.

Lemma fetchWithRetry_abort_after_failures_witness :
  ∃ s',
    fetchWithRetry (net_abort_after 1) "/posts" None 3 fresh_manager
    = (Throw superseded, s')
    ∧ attempts s' = 2%nat.
Proof.
  destruct (fetchWithRetry_abort_after_failures (net_abort_after 1) "/posts"
              None 1 3 fresh_manager superseded)
    as (s' & delta & Hrun & Hatt & _).
  - lia.
  - intros i Hi. exists offline. simpl in Hi. unfold net_abort_after.
    replace (i <? 1)%nat with true by (symmetry; apply Nat.ltb_lt; lia).
    split; [reflexivity|discriminate].
  - reflexivity.
  - reflexivity.
  - exists s'. split; [exact Hrun|exact Hatt].
Defined.

(** ** More on the cached fetch *)

Lemma after_lookup_as_set_cache (key : string) (useCache : bool) (s : State) :
  after_lookup key useCache s
  = set_cache (cache (after_lookup key useCache s)) s.
Proof.
  destruct (after_lookup_set_cache key useCache s) as [c ->]. done.
Qed.

Lemma after_lookup_other (key : string) (useCache : bool) (s : State)
    (k : string) :
  k ≠ key →
  Map_get (cache (after_lookup key useCache s)) k = Map_get (cache s) k.
Proof.
  intros Hk. unfold after_lookup. destruct useCache; [|done].
  destruct (Map_get (cache s) key) as [entry|]; [|done].
  destruct (_ <? _); [done|]. simpl. by apply Map_get_delete_ne.
Qed.

Section FetchOutcomes.
Variable net : nat → string → option nat → NetReply.
Variable URL_href : string → list (string * string) → option string.

(** [fetchData] when it is not answered from the cache, in terms of the
    run of [fetchWithRetry] it contains. *)
Lemma fetchData_miss_run (endpoint : string) (params : JsObject)
    (useCache : bool) (s : State) :
  let key := generateCacheKey endpoint params in
  let c := cache (after_lookup key useCache s) in
  cache_hit key useCache s = false →
  fetchData net URL_href endpoint params useCache s
  = match URL_href (baseUrl s +:+ endpoint) (query_pairs params) with
    | None =>
        (Throw (mkError "TypeError" "Invalid URL"),
         set_cache c (after_supersede s))
    | Some url =>
        match fetchWithRetry net url (Some (controllers s))
                (maxRetries (config s)) (after_supersede s) with
        | (Normal d, s2) =>
            (Normal d,
             if useCache then after_setCache key d (set_cache c s2)
             else set_cache c s2)
        | (Throw e, s2) =>
            (Throw e,
             if String.eqb (name e) "AbortError" then set_cache c s2
             else set_trace (trace s2 ++ [ConsoleError e]) (set_cache c s2))
        end
    end.
Proof.
  intros key c Hmiss. rewrite fetchData_miss by done. fold key.
  rewrite after_lookup_as_set_cache. fold c.
  apply fetchData_request_cache.
Qed.

(** X11: one [fetchData] makes at most [max(maxRetries, 0) + 1]
    network calls and raises [requestCount] by exactly the number it
    makes; it makes none when it is answered from the cache or when the
    URL is rejected. *)
Theorem fetchData_request_count (endpoint : string) (params : JsObject)
    (useCache : bool) (s : State) :
  let s' := (fetchData net URL_href endpoint params useCache s).2 in
  ∃ n,
    Z.of_nat n ≤ Z.max (maxRetries (config s)) 0 + 1
    ∧ attempts s' = (attempts s + n)%nat
    ∧ requestCount s' = requestCount s + Z.of_nat n
    ∧ (cache_hit (generateCacheKey endpoint params) useCache s = true
       → n = 0%nat)
    ∧ (URL_href (baseUrl s +:+ endpoint) (query_pairs params) = None
       → n = 0%nat).
Proof.
  cbn zeta. set (key := generateCacheKey endpoint params).
  destruct (cache_hit key useCache s) eqn:Hhit.
  { apply cache_hit_entry in Hhit as (-> & entry & Hentry & Hfresh & Ht).
    rewrite (fetchData_hit net URL_href endpoint params s entry) by done.
    exists 0%nat. simpl. repeat split; lia. }
  rewrite fetchData_miss_run by done. fold key.
  destruct (URL_href _ _) as [url|].
  - destruct (fetchWithRetry_attempts net url (Some (controllers s))
                (maxRetries (config s)) (after_supersede s))
      as (n & _ & Hn & Hatt & Hcount & _).
    exists n. split; [done|].
    destruct (fetchWithRetry net url _ _ _) as [[d|e] s2]; simpl in *.
    + by destruct useCache.
    + by destruct (String.eqb (name e) "AbortError").
  - exists 0%nat. simpl. repeat split; lia.
Qed.

(** X12: with [useCache] false [fetchData] neither reads nor writes the
    cache: the cache is left as it was, whatever the outcome, and the
    only events notified are those of the request. *)
Theorem fetchData_without_cache (endpoint : string) (params : JsObject)
    (s : State) (event : string) :
  let s' := (fetchData net URL_href endpoint params false s).2 in
  cache s' = cache s
  ∧ (request_effect (Notify event None) = false →
     List.filter (is_Notify event) (trace s')
     = List.filter (is_Notify event) (trace s)).
Proof.
  cbn zeta. rewrite fetchData_miss_run by done.
  change (after_lookup _ false s) with s.
  assert (∀ e, request_effect e = true → is_Notify event e = false
               ∨ request_effect (Notify event None) = true) as Hev.
  { intros [ev p| | | | | |]; simpl; auto.
    destruct (String.eqb_spec ev event) as [->|]; auto. }
  assert (request_effect (Notify event None) = false →
          List.filter (is_Notify event) (trace (after_supersede s))
          = List.filter (is_Notify event) (trace s)) as Hsup.
  { intros _. unfold after_supersede. cbn [trace].
    rewrite !List.filter_app. destruct (abortController s); simpl;
      by rewrite app_nil_r. }
  destruct (URL_href _ _) as [url|]; [|by split].
  destruct (fetchWithRetry_frame net url (Some (controllers s))
              (maxRetries (config s)) (after_supersede s))
    as ((_ & Hcache & _) & delta & Htrace & Hdelta).
  destruct (fetchWithRetry net url _ _ _) as [[d|e] s2]; simpl in *.
  - split; [done|]. intros Hquiet.
    rewrite Htrace, List.filter_app, Hsup by done.
    rewrite (filter_excluded (is_Notify event) request_effect delta);
      [by rewrite app_nil_r| |done].
    intros e He. destruct (Hev e He); [done|congruence].
  - split; [by destruct (String.eqb (name e) "AbortError")|]. intros Hquiet.
    assert (List.filter (is_Notify event) (trace s2)
            = List.filter (is_Notify event) (trace s)) as Hs2.
    { rewrite Htrace, List.filter_app, Hsup by done.
      rewrite (filter_excluded (is_Notify event) request_effect delta);
        [by rewrite app_nil_r| |done].
      intros e0 He0. destruct (Hev e0 He0); [done|congruence]. }
    destruct (String.eqb (name e) "AbortError"); simpl; [done|].
    rewrite List.filter_app, Hs2. simpl. by rewrite app_nil_r.
Qed.

(** X13: [fetchData] leaves the cache entries of all other keys as
    they were, whatever the outcome; and when it resolves with
    [useCache] true, the cache holds the value it resolved with under
    the key of the request. *)
Theorem fetchData_touches_only_its_key (endpoint : string)
    (params : JsObject) (useCache : bool) (s : State) :
  let key := generateCacheKey endpoint params in
  let run := fetchData net URL_href endpoint params useCache s in
  (∀ k, k ≠ key → Map_get (cache run.2) k = Map_get (cache s) k)
  ∧ ∀ d, useCache = true → run.1 = Normal d →
      ∃ entry, Map_get (cache run.2) key = Some entry ∧ data entry = d.
Proof.
  cbn zeta. set (key := generateCacheKey endpoint params).
  destruct (cache_hit key useCache s) eqn:Hhit.
  { apply cache_hit_entry in Hhit as (-> & entry & Hentry & Hfresh & Ht).
    rewrite (fetchData_hit net URL_href endpoint params s entry) by done.
    simpl. split; [done|]. intros d _ [= <-]. eauto. }
  rewrite fetchData_miss_run by done. fold key.
  pose proof (after_lookup_other key useCache s) as Hother.
  set (c := cache (after_lookup key useCache s)) in *.
  destruct (URL_href _ _) as [url|]; [|by split].
  destruct (fetchWithRetry net url _ _ _) as [[d|e] s2]; simpl.
  - split.
    + intros k Hk. destruct useCache; simpl; [|by apply Hother].
      rewrite Map_get_set_ne by done. by apply Hother.
    + intros d' -> [= <-]. simpl. rewrite Map_get_set. eauto.
  - split; [|done]. intros k Hk.
    destruct (String.eqb (name e) "AbortError"); by apply Hother.
Qed.

(** X14: controller identities stay in order under [fetchData]; and
    after a call that is not answered from the cache, the controller in
    place is a new one that is not aborted, while the controller that was
    in place before is. *)
Theorem fetchData_controllers_ok (endpoint : string) (params : JsObject)
    (useCache : bool) (s : State) :
  controllers_ok s →
  let s' := (fetchData net URL_href endpoint params useCache s).2 in
  controllers_ok s'
  ∧ (cache_hit (generateCacheKey endpoint params) useCache s = false →
     abortController s' = Some (controllers s)
     ∧ (controllers s ∉ aborted s')
     ∧ ∀ c, abortController s = Some c →
            c ∈ aborted s' ∧ c ≠ controllers s).
Proof.
  intros [Hab Hcur]. cbn zeta. set (key := generateCacheKey endpoint params).
  destruct (cache_hit key useCache s) eqn:Hhit.
  { apply cache_hit_entry in Hhit as (-> & entry & Hentry & Hfresh & Ht).
    rewrite (fetchData_hit net URL_href endpoint params s entry) by done.
    by split. }
  assert (controllers_ok (after_supersede s)
          ∧ (controllers s ∉ aborted (after_supersede s))
          ∧ ∀ c, abortController s = Some c →
                 c ∈ aborted (after_supersede s) ∧ c ≠ controllers s)
    as (Hok & Hnew & Hold).
  { unfold controllers_ok, after_supersede. simpl.
    destruct (abortController s) as [c0|] eqn:Hc0.
    - specialize (Hcur c0 eq_refl). split; [split|split].
      + constructor; [lia|]. eapply List.Forall_impl; [|exact Hab].
        simpl. lia.
      + intros c [= <-]. lia.
      + rewrite not_elem_of_cons. split; [lia|].
        intros Hin. rewrite List.Forall_forall in Hab.
        apply list_elem_of_In, Hab in Hin. lia.
      + intros c [= <-]. split; [by left|lia].
    - split; [split|split].
      + eapply List.Forall_impl; [|exact Hab]. simpl. lia.
      + intros c [= <-]. lia.
      + intros Hin. rewrite List.Forall_forall in Hab.
        apply list_elem_of_In, Hab in Hin. lia.
      + done. }
  assert (∀ s2, same_manager (after_supersede s) s2 →
            controllers_ok s2
            ∧ abortController s2 = Some (controllers s)
            ∧ (controllers s ∉ aborted s2)
            ∧ ∀ c, abortController s = Some c →
                   c ∈ aborted s2 ∧ c ≠ controllers s) as Hsame.
  { intros s2 (_ & _ & Hc & _ & _ & _ & Hn & Ha).
    unfold controllers_ok. rewrite Hc, Hn, Ha. destruct Hok. done. }
  rewrite fetchData_miss_run by done. fold key.
  set (c := cache (after_lookup key useCache s)).
  destruct (URL_href _ _) as [url|].
  - pose proof (fetchWithRetry_frame net url (Some (controllers s))
                  (maxRetries (config s)) (after_supersede s)) as [Hfr _].
    destruct (fetchWithRetry net url _ _ _) as [[d|e] s2]; simpl in *.
    + destruct (Hsame s2 Hfr) as (H1 & H2 & H3 & H4).
      destruct useCache; by split.
    + destruct (Hsame s2 Hfr) as (H1 & H2 & H3 & H4).
      destruct (String.eqb (name e) "AbortError"); by split.
  - destruct (Hsame (after_supersede s)) as (H1 & H2 & H3 & H4);
      [by repeat split|]. by split.
Qed.

(** X16: when [fetchData] is not answered from the cache and every
    attempt fails with an error other than [AbortError], it rejects with
    the error of the last attempt after [maxRetries + 1] attempts,
    writes that error to the console once, after the [request-error]
    notification, and stores nothing in the cache. *)
Theorem fetchData_all_attempts_fail (endpoint : string) (params : JsObject)
    (useCache : bool) (s : State) (url : string) :
  let key := generateCacheKey endpoint params in
  let last := (attempts s + Z.to_nat (maxRetries (config s)))%nat in
  cache_hit key useCache s = false →
  URL_href (baseUrl s +:+ endpoint) (query_pairs params) = Some url →
  0 ≤ maxRetries (config s) →
  (∀ i, (attempts s ≤ i ≤ last)%nat →
        ∃ e, attempt_result (net i url (Some (controllers s))) = Throw e
             ∧ name e ≠ "AbortError") →
  ∃ e s',
    fetchData net URL_href endpoint params useCache s = (Throw e, s')
    ∧ attempt_result (net last url (Some (controllers s))) = Throw e
    ∧ requestCount s' = requestCount s + maxRetries (config s) + 1
    ∧ cache s' = cache (after_lookup key useCache s)
    ∧ List.filter is_ConsoleError (trace s')
      = List.filter is_ConsoleError (trace s) ++ [ConsoleError e]
    ∧ List.filter (is_Notify "request-error") (trace s')
      = List.filter (is_Notify "request-error") (trace s)
        ++ [Notify "request-error" (Some e)]
    ∧ ∃ before, trace s' = before ++ [ConsoleError e].
Proof.
  intros key last Hmiss Hurl Hbudget Hfail.
  rewrite fetchData_miss_run, Hurl by done. fold key.
  destruct (retry_loop_fails net url (Some (controllers s))
              (Z.to_nat (maxRetries (config s))) (maxRetries (config s))
              (after_supersede s) eq_refl Hbudget Hfail)
    as (e & s2 & Hrun & Hlast & Hatt & Hcount & Htrace).
  rewrite Hrun. exists e. eexists. split; [reflexivity|].
  split; [exact Hlast|].
  destruct (Hfail last) as (e' & He' & Hname); [unfold last; lia|].
  change (attempts (after_supersede s)) with (attempts s) in Hlast.
  fold last in Hlast. rewrite Hlast in He'. injection He' as <-.
  apply String.eqb_neq in Hname. rewrite Hname.
  split; [simpl in *; lia|]. split; [done|].
  cbn [trace set_trace set_cache]. split; [|split; [|by eexists]].
  - rewrite Htrace, !List.filter_app, !filter_notified by done.
    rewrite (filter_excluded is_ConsoleError request_effect
               (retry_trace _ _ _ _ _)).
    + unfold after_supersede. cbn [trace]. rewrite !List.filter_app.
      destruct (abortController s); simpl; by rewrite !app_nil_r.
    + by intros [].
    + clear. induction (Z.to_nat _) as [|n IH]; cbn [retry_trace];
        rewrite !forallb_app, notified_request_effect by done; [done|].
      by rewrite IH.
  - rewrite Htrace, !List.filter_app, retry_trace_no_error,
      !filter_notified by done.
    unfold after_supersede. cbn [trace]. rewrite !List.filter_app.
    destruct (abortController s); simpl; by rewrite !app_nil_r.
Qed.

(** X15: when the [URL] constructor rejects the address, [fetchData]
    that is not answered from the cache rejects with its [TypeError]
    without any network call and without touching [requestCount]; the
    request in flight has been aborted all the same, and a new
    controller is in place. *)
Theorem fetchData_invalid_url (endpoint : string) (params : JsObject)
    (useCache : bool) (s : State) :
  cache_hit (generateCacheKey endpoint params) useCache s = false →
  URL_href (baseUrl s +:+ endpoint) (query_pairs params) = None →
  ∃ e s',
    fetchData net URL_href endpoint params useCache s = (Throw e, s')
    ∧ name e = "TypeError"
    ∧ attempts s' = attempts s
    ∧ requestCount s' = requestCount s
    ∧ abortController s' = Some (controllers s)
    ∧ aborted s' = match abortController s with
                   | Some c => c :: aborted s
                   | None => aborted s
                   end
    ∧ trace s'
      = trace s
        ++ match abortController s with
           | Some c => [Abort c]
           | None => []
           end
        ++ [NewAbortController (controllers s)].
Proof.
  intros Hmiss Hurl. rewrite fetchData_miss_run, Hurl by done.
  eexists _, _. split; [reflexivity|]. by repeat split.
Qed.
End FetchOutcomes.

Lemma fetchData_controllers_ok_witness :
  abortController
    (fetchData net_down plain_href "/posts" [] true fresh_manager).2
  = Some 0%nat.
Proof.
  destruct (fetchData_controllers_ok net_down plain_href "/posts" [] true
              fresh_manager) as (_ & Hnew).
  - split; [constructor|discriminate].
  - destruct Hnew as (Hc & _); [reflexivity|exact Hc].
Defined.

Lemma fetchData_invalid_url_witness :
  ∃ e s',
    fetchData net_down no_href "/posts" [] true fresh_manager = (Throw e, s')
    ∧ attempts s' = 0%nat.
Proof.
  destruct (fetchData_invalid_url net_down no_href "/posts" [] true
              fresh_manager) as (e & s' & Hrun & _ & Hatt & _);
    [reflexivity|reflexivity|].
  exists e, s'. split; [exact Hrun|exact Hatt].
Defined.

Lemma fetchData_all_attempts_fail_witness :
  ∃ s',
    fetchData net_down plain_href "/posts" [] true fresh_manager
    = (Throw offline, s')
    ∧ requestCount s' = 4.
Proof.
  destruct (fetchData_all_attempts_fail net_down plain_href "/posts" [] true
              fresh_manager "https://jsonplaceholder.typicode.com/posts")
    as (e & s' & Hrun & Hlast & Hcount & _).
  - reflexivity.
  - reflexivity.
  - simpl. lia.
  - intros i _. exists offline. split; [reflexivity|discriminate].
  - exists s'. injection Hlast as <-. split; [exact Hrun|exact Hcount].
Defined.

(** ** Debouncing *)

Lemma clear_tracked (w : Timed) :
  timer_tracked w →
  pending (clearTimeout (debounceTimer (manager w)) w) = [].
Proof.
  unfold timer_tracked, clearTimeout.
  destruct (debounceTimer (manager w)) as [i|]; simpl.
  - induction 1 as [|t l Ht _ IH]; simpl; [done|].
    injection Ht as ->. by rewrite Nat.eqb_refl.
  - by destruct 1.
Qed.

(** A call of a debounced function leaves exactly its own timer
    pending. *)
Lemma call_debounced_run (f : Debounced) (args : list JsValue) (w : Timed) :
  timer_tracked w →
  call_debounced f args w
  = mkTimed (set_debounceTimer (Some (timers w)) (manager w))
      [mkTimer (timers w) (now (manager w) + Z.max 0 (wait f)) (wrapped f) args]
      (S (timers w)) (calls w).
Proof.
  intros Hw. unfold call_debounced, setTimeout.
  pose proof (clear_tracked w Hw) as Hclear.
  destruct (debounceTimer (manager w)); simpl in *; by rewrite ?Hclear.
Qed.

Lemma elapse_after_call (f : Debounced) (args : list JsValue) (gap : Z)
    (w : Timed) :
  timer_tracked w →
  let w' := elapse gap (call_debounced f args w) in
  timer_tracked w'
  ∧ if Z.max 0 (wait f) <=? gap
    then calls w' = calls w ++ [(wrapped f, args)] ∧ pending w' = []
    else calls w' = calls w ∧ pending w' ≠ [].
Proof.
  intros Hw. cbn zeta. rewrite call_debounced_run by done.
  unfold elapse, timer_tracked. simpl.
  replace (now (manager w) + Z.max 0 (wait f) <=? now (manager w) + gap)
    with (Z.max 0 (wait f) <=? gap)
    by (destruct (Z.leb_spec (Z.max 0 (wait f)) gap);
        symmetry; [apply Z.leb_le|apply Z.leb_gt]; lia).
  destruct (Z.max 0 (wait f) <=? gap); simpl.
  - by split.
  - rewrite app_nil_r. split; [|done]. by repeat constructor.
Qed.

(** X17: of a run of calls of debounced functions of one manager, each
    made before the delay of the previous call has passed, only the last
    call reaches its callback, once and with its own arguments, also
    when the calls are of different debounced functions. *)
Theorem debounce_last_call_wins (cs : list (Debounced * list JsValue * Z))
    (f : Debounced) (args : list JsValue) (gap : Z) (w : Timed) :
  timer_tracked w →
  Forall (fun c => 0 ≤ c.2 ∧ c.2 < wait c.1.1) cs →
  0 ≤ gap → wait f ≤ gap →
  calls (burst (cs ++ [(f, args, gap)]) w) = calls w ++ [(wrapped f, args)]
  ∧ pending (burst (cs ++ [(f, args, gap)]) w) = [].
Proof.
  intros Hw Hcs Hgap Hwait. revert w Hw.
  induction Hcs as [|[[f' args'] gap'] cs [Hg1 Hg2] _ IH]; intros w Hw; simpl.
  - destruct (elapse_after_call f args gap w Hw) as [_ H].
    by replace (Z.max 0 (wait f) <=? gap) with true in H
      by (symmetry; apply Z.leb_le; lia).
  - destruct (elapse_after_call f' args' gap' w Hw) as [Hw' H].
    simpl in Hg1, Hg2.
    replace (Z.max 0 (wait f') <=? gap') with false in H
      by (symmetry; apply Z.leb_gt; lia).
    destruct H as [Hcalls _].
    destruct (IH _ Hw') as [IH1 IH2]. by rewrite IH1, IH2, Hcalls.
Qed.

(** X18: calls of debounced functions that are each followed by at
    least the delay of the call all reach their callbacks, in order and
    with their own arguments. *)
Theorem debounce_spaced_calls_all_run
    (cs : list (Debounced * list JsValue * Z)) (w : Timed) :
  timer_tracked w →
  Forall (fun c => 0 ≤ c.2 ∧ wait c.1.1 ≤ c.2) cs →
  calls (burst cs w)
  = calls w ++ List.map (fun c => (wrapped c.1.1, c.1.2)) cs
  ∧ timer_tracked (burst cs w).
Proof.
  intros Hw Hcs. revert w Hw.
  induction Hcs as [|[[f' args'] gap'] cs [Hg1 Hg2] _ IH]; intros w Hw; simpl.
  - by rewrite app_nil_r.
  - destruct (elapse_after_call f' args' gap' w Hw) as [Hw' H].
    simpl in Hg1, Hg2.
    replace (Z.max 0 (wait f') <=? gap') with true in H
      by (symmetry; apply Z.leb_le; lia).
    destruct H as [Hcalls _].
    destruct (IH _ Hw') as [IH1 IH2]. split; [|done].
    by rewrite IH1, Hcalls, <- app_assoc.
Qed.

Lemma debounce_last_call_wins_witness :
  let f := debounceSearch 7 None fresh_manager in
  calls (burst [(f, [JStr "a"], 100); (f, [JStr "ab"], 100);
                (f, [JStr "abc"], 300)]
           (mkTimed fresh_manager [] 0 []))
  = [(7%nat, [JStr "abc"])].
Proof.
  cbn zeta.
  destruct (debounce_last_call_wins
              [(debounceSearch 7 None fresh_manager, [JStr "a"], 100);
               (debounceSearch 7 None fresh_manager, [JStr "ab"], 100)]
              (debounceSearch 7 None fresh_manager) [JStr "abc"] 300
              (mkTimed fresh_manager [] 0 [])) as [Hcalls _].
  - constructor.
  - repeat constructor; simpl; lia.
  - lia.
  - simpl. lia.
  - exact Hcalls.
Defined.

Lemma debounce_spaced_calls_all_run_witness :
  let f := debounceSearch 7 (Some 50) fresh_manager in
  calls (burst [(f, [JStr "a"], 50); (f, [JStr "ab"], 80)]
           (mkTimed fresh_manager [] 0 []))
  = [(7%nat, [JStr "a"]); (7%nat, [JStr "ab"])].
Proof.
  cbn zeta.
  destruct (debounce_spaced_calls_all_run
              [(debounceSearch 7 (Some 50) fresh_manager, [JStr "a"], 50);
               (debounceSearch 7 (Some 50) fresh_manager, [JStr "ab"], 80)]
              (mkTimed fresh_manager [] 0 [])) as [Hcalls _].
  - constructor.
  - repeat constructor; simpl; lia.
  - exact Hcalls.
Defined.

(** ** Pages *)

Lemma ceil_div_le (a b x : Z) :
  0 < b → Math_ceil_div a b ≤ x ↔ a ≤ x * b.
Proof.
  intros Hb. unfold Math_ceil_div.
  pose proof (Z.div_mod (- a) b) as Hdm.
  pose proof (Z.mod_pos_bound (- a) b Hb) as Hm.
  split; intros H; nia.
Qed.

Lemma slice_page {A} (l : list A) (start perPage : Z) :
  0 ≤ start → 0 < perPage →
  slice l start (start + perPage)
  = take (Z.to_nat perPage) (drop (Z.to_nat start) l).
Proof.
  intros Hs Hp. unfold slice.
  replace (start <? 0) with false by (symmetry; apply Z.ltb_ge; lia).
  replace (start + perPage <? 0) with false by (symmetry; apply Z.ltb_ge; lia).
  set (len := Z.of_nat (length l)).
  destruct (Z.le_gt_cases start len) as [Hin|Hout].
  - rewrite (Z.min_l start) by lia.
    destruct (Z.le_gt_cases (start + perPage) len) as [Hfull|Hpart].
    + rewrite Z.min_l by lia. f_equal. lia.
    + rewrite Z.min_r by lia.
      rewrite !take_ge; [done| |]; rewrite length_drop; unfold len in *; lia.
  - rewrite !Z.min_r by lia. rewrite Z.sub_diag. simpl.
    rewrite !drop_ge by (unfold len in *; lia). by rewrite !take_nil.
Qed.

Lemma page_items_take (items : list JsObject) (perPage p : Z) :
  0 < perPage → 1 ≤ p →
  page_items items perPage p
  = take (Z.to_nat perPage) (drop (Z.to_nat ((p - 1) * perPage)) items).
Proof. intros Hp H1. unfold page_items. apply slice_page; nia. Qed.

Lemma pages_prefix (items : list JsObject) (perPage : Z) (n : nat) :
  0 < perPage →
  List.concat
    (List.map (fun p => page_items items perPage (Z.of_nat p)) (seq 1 n))
  = take (n * Z.to_nat perPage) items.
Proof.
  intros Hp. induction n as [|n IH]; [done|].
  rewrite seq_S, List.map_app, List.concat_app, IH. simpl.
  rewrite app_nil_r, page_items_take by lia.
  replace (Z.to_nat ((Z.of_nat (S n) - 1) * perPage))
    with (n * Z.to_nat perPage)%nat by nia.
  rewrite take_take_drop. f_equal. lia.
Qed.

(** A page within range is non-empty and has at most [perPage] items. *)
Lemma page_bounds (items : list JsObject) (perPage p : Z) :
  0 < perPage →
  1 ≤ p ≤ Math_ceil_div (Z.of_nat (length items)) perPage →
  page_items items perPage p ≠ []
  ∧ Z.of_nat (length (page_items items perPage p)) ≤ perPage.
Proof.
  intros Hp [H1 Hp2]. rewrite page_items_take by done.
  assert ((p - 1) * perPage < Z.of_nat (length items)) as Hstart.
  { apply Z.nle_gt. intros Hle.
    apply (proj2 (ceil_div_le (Z.of_nat (length items)) perPage (p - 1) Hp))
      in Hle. lia. }
  assert (0 ≤ (p - 1) * perPage) as Hpos by nia.
  split.
  - intros Hnil. apply (f_equal length) in Hnil.
    rewrite length_take, length_drop in Hnil. cbn [length] in Hnil. lia.
  - rewrite length_take. lia.
Qed.

(** X19: the pages cut the filtered data into consecutive pieces: the
    pages 1 to [totalPages], put one after another, give the data back,
    and each of them is non-empty and has at most [itemsPerPage]
    items. *)
Theorem pages_partition (items : list JsObject) (perPage : Z) :
  0 < perPage →
  let total := Math_ceil_div (Z.of_nat (length items)) perPage in
  List.concat
    (List.map (fun p => page_items items perPage (Z.of_nat p))
       (seq 1 (Z.to_nat total)))
  = items
  ∧ ∀ p, 1 ≤ p ≤ total →
      page_items items perPage p ≠ []
      ∧ Z.of_nat (length (page_items items perPage p)) ≤ perPage.
Proof.
  intros Hp total. split.
  - rewrite pages_prefix by done. apply take_ge.
    assert (Z.of_nat (length items) ≤ total * perPage)
      by (by apply ceil_div_le). nia.
  - intros p Hrange. by apply page_bounds.
Qed.

Lemma pages_partition_witness :
  List.concat
    (List.map
       (fun p => page_items [numbered_item; numbered_item; numbered_item] 2
                   (Z.of_nat p))
       (seq 1 2))
  = [numbered_item; numbered_item; numbered_item].
Proof.
  destruct (pages_partition [numbered_item; numbered_item; numbered_item] 2)
    as [Hall _]; [lia|].
  exact Hall.
Defined.

(** The fields the pagination code reads. *)
Lemma page_state (a b : App) :
  filteredData a = filteredData b → currentPage a = currentPage b →
  itemsPerPage a = itemsPerPage b →
  updatePagination (renderData a) = updatePagination (renderData b).
Proof.
  destruct a, b. simpl. intros -> -> ->.
  unfold updatePagination, renderData. simpl. done.
Qed.

Lemma shown_fixed (a : App) :
  shown a → updatePagination (renderData a) = a.
Proof. by intros [-> ->]. Qed.

Lemma shown_after (a : App) : shown (updatePagination (renderData a)).
Proof. by destruct a. Qed.

(** X20: once filtered data is shown, any sequence of clicks on the
    previous and next buttons keeps the screen in step with the page
    number, the page number at least 1 and, the data being non-empty, at
    most [totalPages]; the "No data found" notice is on the screen
    exactly when the filtered data is empty. *)
Theorem pagination_invariant (items : list JsObject) (a0 : App)
    (clicks : list Click) :
  0 < itemsPerPage a0 →
  let a := fold_left click clicks (showFiltered items a0) in
  shown a
  ∧ filteredData a = items
  ∧ itemsPerPage a = itemsPerPage a0
  ∧ totalPages a
    = Math_ceil_div (Z.of_nat (length items)) (itemsPerPage a0)
  ∧ 1 ≤ currentPage a
  ∧ (items ≠ [] → currentPage a ≤ totalPages a)
  ∧ (dataGrid a = NoData ↔ items = []).
Proof.
  intros Hp. cbn zeta.
  set (inv := fun a : App =>
    shown a ∧ filteredData a = items ∧ itemsPerPage a = itemsPerPage a0
    ∧ totalPages a
      = Math_ceil_div (Z.of_nat (length items)) (itemsPerPage a0)
    ∧ 1 ≤ currentPage a ∧ (items ≠ [] → currentPage a ≤ totalPages a)).
  assert (inv (showFiltered items a0)) as Hstart.
  { unfold inv, showFiltered, shown. simpl. repeat split; try lia.
    intros Hne.
    apply Z.lt_pred_le, Z.nle_gt. intros Hle.
    apply (proj1 (ceil_div_le _ _ _ Hp)) in Hle.
    destruct items; simpl in *; [done|lia]. }
  assert (∀ a c, inv a → inv (click a c)) as Hstep.
  { unfold inv. intros a c (Hshown & Hdata & Hper & Htotal & H1 & Hmax).
    destruct c; simpl; unfold previousPage, nextPage.
    - destruct (Z.ltb_spec 1 (currentPage a)); [|by split; [|repeat split]].
      split; [apply shown_after|]. simpl. rewrite Hdata, Hper.
      repeat split; try done; try lia.
      intros Hne. specialize (Hmax Hne). rewrite <- Htotal. lia.
    - destruct (Z.ltb_spec (currentPage a) (totalPages a));
        [|by split; [|repeat split]].
      split; [apply shown_after|]. simpl. rewrite Hdata, Hper.
      repeat split; try done; lia. }
  assert (inv (fold_left click clicks (showFiltered items a0))) as Hend.
  { revert Hstart. generalize (showFiltered items a0).
    induction clicks as [|c clicks IH]; intros a Ha; simpl; [done|].
    apply IH, Hstep, Ha. }
  set (a := fold_left click clicks (showFiltered items a0)) in *.
  destruct Hend as (Hshown & Hdata & Hper & Htotal & H1 & Hmax).
  do 6 (split; [done|]).
  destruct Hshown as [Hrender _]. rewrite <- Hrender.
  unfold renderData. simpl.
  fold (page_items (filteredData a) (itemsPerPage a) (currentPage a)).
  rewrite Hdata, Hper.
  destruct (decide (items = [])) as [->|Hne].
  - unfold page_items, slice. by rewrite drop_nil, take_nil.
  - specialize (Hmax Hne). rewrite Htotal in Hmax.
    destruct (page_bounds items (itemsPerPage a0) (currentPage a) Hp)
      as [Hnonempty _]; [lia|].
    by destruct (page_items _ _ _).
Qed.

Lemma pagination_invariant_witness :
  let a :=
    fold_left click [ClickNext; ClickNext; ClickNext; ClickPrevious]
      (showFiltered (List.repeat numbered_item 25) new_App) in
  1 ≤ currentPage a ∧ currentPage a ≤ totalPages a.
Proof.
  destruct (pagination_invariant (List.repeat numbered_item 25) new_App
              [ClickNext; ClickNext; ClickNext; ClickPrevious])
    as (_ & _ & _ & _ & Hmin & Hmax & _); [simpl; lia|].
  split; [exact Hmin|]. apply Hmax. discriminate.
Defined.

(** X21: on a screen in step with a page number of at least 1, where
    the next button takes effect the previous button undoes it, and the
    other way round: the application is back in the very state it was
    in. *)
Theorem next_previous_round_trip (a : App) :
  shown a → 1 ≤ currentPage a →
  (currentPage a < totalPages a → previousPage (nextPage a) = a)
  ∧ (1 < currentPage a → currentPage a ≤ totalPages a →
     nextPage (previousPage a) = a).
Proof.
  intros Hshown Hone. pose proof (shown_fixed a Hshown) as Hfix.
  assert (totalPages a
          = Math_ceil_div (Z.of_nat (length (filteredData a)))
              (itemsPerPage a)) as Htotal.
  { destruct Hshown as [_ Hupd]. by rewrite <- Hupd at 1. }
  split.
  - intros Hnext. unfold nextPage.
    replace (currentPage a <? totalPages a) with true
      by (symmetry; apply Z.ltb_lt; lia).
    unfold previousPage. cbn [currentPage updatePagination renderData
                               set_currentPage].
    replace (1 <? currentPage a + 1) with true
      by (symmetry; apply Z.ltb_lt; lia).
    rewrite <- Hfix at 4. apply page_state; simpl; (done || lia).
  - intros Hprev Hmax. unfold previousPage.
    replace (1 <? currentPage a) with true by (symmetry; apply Z.ltb_lt; lia).
    unfold nextPage. cbn [currentPage totalPages filteredData itemsPerPage
                            updatePagination renderData set_currentPage].
    rewrite <- Htotal.
    replace (currentPage a - 1 <? totalPages a) with true
      by (symmetry; apply Z.ltb_lt; lia).
    rewrite <- Hfix at 4. apply page_state; simpl; (done || lia).
Qed.

Lemma next_previous_round_trip_witness :
  let a := showFiltered (List.repeat numbered_item 25) new_App in
  previousPage (nextPage a) = a.
Proof.
  cbn zeta.
  destruct (next_previous_round_trip
              (showFiltered (List.repeat numbered_item 25) new_App))
    as [Hback _].
  - by split.
  - by vm_compute.
  - apply Hback. by vm_compute.
Defined.

(** ** Sorting *)

Lemma string_compare_refl (x : string) : String.compare x x = Eq.
Proof.
  induction x as [|c x IH]; simpl; [done|].
  unfold Ascii.compare. by rewrite N.compare_refl.
Qed.

Lemma compare_values_antisym (a b : JsValue) (c : comparison) :
  compare_values a b = Some c → compare_values b a = Some (CompOpp c).
Proof.
  destruct a, b; simpl; try discriminate; intros [= <-]; f_equal.
  - apply Z.compare_antisym.
  - apply String.compare_antisym.
Qed.

Lemma compare_values_same (x a b : JsValue) :
  compare_values x a = Some Eq → compare_values x b = Some Eq →
  compare_values a b = Some Eq.
Proof.
  destruct x, a; simpl; try discriminate; destruct b; simpl; try discriminate;
    intros [= Ha] [= Hb]; f_equal.
  - apply Z.compare_eq in Ha, Hb. subst. apply Z.compare_refl.
  - apply String.compare_eq_iff in Ha, Hb. rewrite <- Ha, <- Hb.
    apply string_compare_refl.
Qed.

Lemma in_order_total (sortKey : string) (ascending : bool) (a b : JsObject) :
  in_order sortKey ascending a b = false →
  in_order sortKey ascending b a = true.
Proof.
  unfold in_order, comparator.
  destruct (compare_values (getProp a sortKey) (getProp b sortKey))
    as [c|] eqn:E; [|done].
  rewrite (compare_values_antisym _ _ _ E).
  by destruct c, ascending.
Qed.

Lemma same_rank_in_order (sortKey : string) (ascending : bool)
    (x a b : JsObject) :
  same_rank sortKey x a = true → same_rank sortKey x b = true →
  in_order sortKey ascending a b = true.
Proof.
  unfold same_rank, in_order, comparator. intros Ha Hb.
  rewrite (compare_values_same (getProp x sortKey)); [done| |].
  - by destruct (compare_values _ (getProp a sortKey)) as [[]|].
  - by destruct (compare_values _ (getProp b sortKey)) as [[]|].
Qed.

Section StableSort.
Variable le : JsObject → JsObject → bool.

Lemma sort_insert_by_Permutation (a : JsObject) (l : list JsObject) :
  sort_insert_by le a l ≡ₚ a :: l.
Proof.
  induction l as [|x l IH]; simpl; [done|].
  destruct (le a x); [done|]. rewrite IH. apply Permutation_swap.
Qed.

Lemma stable_sort_Permutation (l : list JsObject) : stable_sort le l ≡ₚ l.
Proof.
  induction l as [|a l IH]; simpl; [done|].
  by rewrite sort_insert_by_Permutation, IH.
Qed.

Lemma sort_insert_by_Sorted (a : JsObject) (l : list JsObject) :
  (∀ x y, le x y = false → le y x = true) →
  Sorted (fun x y => le x y = true) l →
  Sorted (fun x y => le x y = true) (sort_insert_by le a l).
Proof.
  intros Htotal. induction 1 as [|x l Hl IH Hx]; simpl.
  - repeat constructor.
  - destruct (le a x) eqn:Hax.
    + constructor; [by constructor|]. by constructor.
    + constructor; [done|].
      destruct l as [|y l]; simpl in *.
      * constructor. by apply Htotal.
      * destruct (le a y); constructor; [by apply Htotal|by inversion Hx].
Qed.

Lemma stable_sort_Sorted (l : list JsObject) :
  (∀ x y, le x y = false → le y x = true) →
  Sorted (fun x y => le x y = true) (stable_sort le l).
Proof.
  intros Htotal. induction l as [|a l IH]; simpl; [constructor|].
  by apply sort_insert_by_Sorted.
Qed.

Lemma sort_insert_by_filter (R : JsObject → bool) (a : JsObject)
    (l : list JsObject) :
  (∀ y, R a = true → R y = true → le a y = true) →
  List.filter R (sort_insert_by le a l) = List.filter R (a :: l).
Proof.
  intros Hties. induction l as [|y l IH]; [done|].
  cbn [sort_insert_by]. destruct (le a y) eqn:Hay; [done|].
  cbn [List.filter] in *. rewrite IH.
  destruct (R a) eqn:Ha, (R y) eqn:Hy; try done.
  rewrite Hties in Hay; done.
Qed.

Lemma stable_sort_filter (R : JsObject → bool) (l : list JsObject) :
  (∀ a y, R a = true → R y = true → le a y = true) →
  List.filter R (stable_sort le l) = List.filter R l.
Proof.
  intros Hties. induction l as [|a l IH]; [done|].
  cbn [stable_sort]. rewrite sort_insert_by_filter by auto.
  simpl. by rewrite IH.
Qed.
End StableSort.

Lemma sortData_cases (items : list JsObject) (sortKey : string)
    (ascending : bool) (out : list JsObject) :
  sortData items sortKey ascending = Some out →
  out = items ∨ out = stable_sort (in_order sortKey ascending) items.
Proof.
  unfold sortData. destruct items as [|a [|b l]]; try (intros [= <-]; auto).
  destruct (sortable _ _); [|done]. intros [= <-]. auto.
Qed.

(** X22: on a collection whose sort field is a string in every item,
    or a number in every item, [sortData] resolves with a rearrangement
    of the items in which each item and the next are in the order asked
    for: ascending or descending by number, or by the lowercased
    string. *)
Theorem sortData_sorts (items : list JsObject) (sortKey : string)
    (ascending : bool) :
  sortable items sortKey = true →
  ∃ out,
    sortData items sortKey ascending = Some out
    ∧ out ≡ₚ items
    ∧ Sorted (fun a b => in_order sortKey ascending a b = true) out
    ∧ (∀ a b x y, getProp a sortKey = JStr x → getProp b sortKey = JStr y →
         in_order sortKey ascending a b
         = if ascending then String.leb (toLowerCase x) (toLowerCase y)
           else String.leb (toLowerCase y) (toLowerCase x))
    ∧ (∀ a b x y, getProp a sortKey = JNum x → getProp b sortKey = JNum y →
         in_order sortKey ascending a b
         = if ascending then x <=? y else y <=? x).
Proof.
  intros Hsortable.
  assert (∃ out, sortData items sortKey ascending = Some out) as [out Hout].
  { unfold sortData. destruct items as [|a [|b l]]; eauto.
    rewrite Hsortable. eauto. }
  exists out. split; [done|].
  split; [|split; [|split]].
  - destruct (sortData_cases _ _ _ _ Hout) as [->| ->]; [done|].
    apply stable_sort_Permutation.
  - destruct items as [|a [|b l]].
    + injection Hout as <-. constructor.
    + injection Hout as <-. repeat constructor.
    + change (sortData (a :: b :: l) sortKey ascending)
        with (if sortable (a :: b :: l) sortKey
              then Some (stable_sort (in_order sortKey ascending) (a :: b :: l))
              else None) in Hout.
      rewrite Hsortable in Hout. injection Hout as <-.
      apply (stable_sort_Sorted (in_order sortKey ascending) (a :: b :: l)).
      apply in_order_total.
  - intros a b x y Ha Hb. unfold in_order, comparator. rewrite Ha, Hb. simpl.
    unfold String.leb. rewrite (String.compare_antisym (toLowerCase y)).
    by destruct (String.compare (toLowerCase x) (toLowerCase y)), ascending.
  - intros a b x y Ha Hb. unfold in_order, comparator. rewrite Ha, Hb. simpl.
    unfold Z.leb. rewrite (Z.compare_antisym x y).
    by destruct (x ?= y), ascending.
Qed.

Lemma sortData_sorts_witness :
  sortData [[("n", JStr "b")]; [("n", JStr "A")]] "n" true
  = Some [[("n", JStr "A")]; [("n", JStr "b")]].
Proof.
  destruct (sortData_sorts [[("n", JStr "b")]; [("n", JStr "A")]] "n" true)
    as (out & Hout & _); [reflexivity|].
  rewrite Hout. vm_compute in Hout. injection Hout as <-. reflexivity.
Defined.

(** X23: [sortData] is stable in both directions: the items whose sort
    values are equal (strings being compared lowercased) come out in the
    order they had in the input. *)
Theorem sortData_stable (items : list JsObject) (sortKey : string)
    (ascending : bool) (out : list JsObject) (x : JsObject) :
  sortData items sortKey ascending = Some out →
  List.filter (same_rank sortKey x) out
  = List.filter (same_rank sortKey x) items.
Proof.
  intros Hout. destruct (sortData_cases _ _ _ _ Hout) as [->| ->]; [done|].
  apply stable_sort_filter. intros a y. apply same_rank_in_order.
Qed.

Lemma sortData_stable_witness :
  let one := [("n", JStr "a"); ("id", JNum 1)] in
  let two := [("n", JStr "A"); ("id", JNum 2)] in
  let low := [("n", JStr "B"); ("id", JNum 3)] in
  ∃ out,
    sortData [one; low; two] "n" false = Some out
    ∧ List.filter (same_rank "n" one) out = [one; two].
Proof.
  cbn zeta. eexists. split; [reflexivity|].
  rewrite (sortData_stable
             [[("n", JStr "a"); ("id", JNum 1)];
              [("n", JStr "B"); ("id", JNum 3)];
              [("n", JStr "A"); ("id", JNum 2)]] "n" false _
             [("n", JStr "a"); ("id", JNum 1)] eq_refl).
  reflexivity.
Defined.

(** ** More on searching *)

Lemma isWhiteSpace_lowerChar (c : ascii) :
  isWhiteSpace (lowerChar c) = isWhiteSpace c.
Proof. by destruct c as [[] [] [] [] [] [] [] []]. Qed.

Lemma whitespaceOnly_toLowerCase (q : string) :
  whitespaceOnly (toLowerCase q) = whitespaceOnly q.
Proof.
  induction q as [|c q IH]; simpl; [done|].
  by rewrite isWhiteSpace_lowerChar, IH.
Qed.

Lemma searchData_filter (items : list JsObject) (query : string)
    (fields : list string) :
  searchData items query fields
  = if whitespaceOnly query then items
    else List.filter (matches query fields) items.
Proof.
  unfold searchData. rewrite trim_empty. by destruct (whitespaceOnly query).
Qed.

(** X24: the case of the query does not matter: two queries with the
    same lowercase form select the same items. *)
Theorem searchData_query_case (items : list JsObject) (q1 q2 : string)
    (fields : list string) :
  toLowerCase q1 = toLowerCase q2 →
  searchData items q1 fields = searchData items q2 fields.
Proof.
  intros Hq. rewrite !searchData_filter.
  rewrite <- (whitespaceOnly_toLowerCase q1), <- (whitespaceOnly_toLowerCase q2).
  rewrite Hq. unfold matches. by rewrite Hq.
Qed.

Lemma searchData_query_case_witness :
  searchData [numbered_item] "INTRO" default_fields
  = searchData [numbered_item] "intro" default_fields.
Proof.
  apply (searchData_query_case [numbered_item] "INTRO" "intro" default_fields).
  reflexivity.
Defined.

Lemma filter_twice {A} (f : A → bool) (l : list A) :
  List.filter f (List.filter f l) = List.filter f l.
Proof.
  induction l as [|x l IH]; simpl; [done|].
  destruct (f x) eqn:E; simpl; by rewrite ?E, IH.
Qed.

Lemma filter_swap {A} (f g : A → bool) (l : list A) :
  List.filter f (List.filter g l) = List.filter g (List.filter f l).
Proof.
  induction l as [|x l IH]; simpl; [done|].
  destruct (f x) eqn:Ef, (g x) eqn:Eg; simpl; by rewrite ?Ef, ?Eg, IH.
Qed.

Lemma filter_sublist {A} (f : A → bool) (l : list A) :
  sublist (List.filter f l) l.
Proof.
  induction l as [|x l IH]; simpl; [constructor|].
  destruct (f x); by constructor.
Qed.

(** X25: [searchData] only selects: its result lists items of the
    input in their original order; searching the result again with the
    same query and fields changes nothing; and searching and
    [filterData] may be done in either order. *)
Theorem searchData_selects (items : list JsObject) (query : string)
    (fields : list string) (filterFn : JsObject → bool) :
  sublist (searchData items query fields) items
  ∧ searchData (searchData items query fields) query fields
    = searchData items query fields
  ∧ filterData (searchData items query fields) filterFn
    = searchData (filterData items filterFn) query fields.
Proof.
  rewrite !searchData_filter. unfold filterData.
  destruct (whitespaceOnly query).
  - by repeat split.
  - split; [apply filter_sublist|]. split; [apply filter_twice|].
    apply filter_swap.
Qed.
